(** * Terminal-Helper: the command-safety filter ([src/safety.py])

    A shallow embedding of [CommandSafety.check] together with the parts of
    Python it runs on: [str] values as sequences of code points, the
    [str] methods [strip], [split], [join], [lower] and the [in] operator,
    and [re.search] under [re.IGNORECASE] for the regular-expression syntax
    the rule table is written in. *)

From Stdlib Require Import List Bool Arith NArith ZArith Ascii String Lia DecimalString.
Import ListNotations.

(** ** Python values *)

(** A Python [str] is a sequence of Unicode code points. *)
Definition str : Type := list N.

(** The [str] whose text is the given literal. *)
Definition str_of (s : string) : str :=
  map N_of_ascii (list_ascii_of_string s).

(** The double-quote character, as a one-character literal. *)
Definition dquote : string := String (ascii_of_nat 34) EmptyString.

(** What a call does: it returns a value or raises. The only exception the
    filter can meet is [re.error], raised by [re.search] for a pattern that
    does not compile. *)
Inductive exn : Type := re_error.

Inductive res (A : Type) : Type :=
| Returns (a : A)
| Raises (e : exn).

Arguments Returns {A} a.
Arguments Raises {A} e.

(** ** The Unicode character database

    Three tables of the interpreter are not spelled out here, for code points
    outside ASCII: the full lower-case mapping [str.lower] applies (in the
    context of the characters before and after, as the final-sigma rule
    needs), the alphanumeric characters ([\w] and [\b]), and which characters
    a pattern letter matches when case is ignored. On ASCII all three are
    written out below, and every result is stated for any contents of the
    three tables. *)
Class UnicodeData : Type := {
  ucd_lower : str -> N -> str -> str;
  ucd_isalnum : N -> bool;
  ucd_ieq : N -> N -> bool
}.

(** A database with no letters outside ASCII. *)
Definition ascii_only : UnicodeData := {|
  ucd_lower := fun _ c _ => [c];
  ucd_isalnum := fun _ => false;
  ucd_ieq := fun _ _ => false
|}.

Module Py.

Local Open Scope N_scope.

Definition is_ascii (c : N) : bool := c <? 128.

(** [Py_UNICODE_ISSPACE]: the characters [str.strip], [str.split] and the
    pattern [\s] treat as whitespace. *)
Definition isspace (c : N) : bool :=
  ((9 <=? c) && (c <=? 13)) || ((28 <=? c) && (c <=? 32))
  || (c =? 133) || (c =? 160) || (c =? 5760)
  || ((8192 <=? c) && (c <=? 8202))
  || (c =? 8232) || (c =? 8233) || (c =? 8239) || (c =? 8287) || (c =? 12288).

Definition ascii_isupper (c : N) : bool := (65 <=? c) && (c <=? 90).
Definition ascii_islower (c : N) : bool := (97 <=? c) && (c <=? 122).
Definition ascii_isdigit (c : N) : bool := (48 <=? c) && (c <=? 57).

Definition ascii_lower (c : N) : N := if ascii_isupper c then c + 32 else c.

(** [s.lstrip()], [s.rstrip()], [s.strip()] with no argument. *)
Fixpoint lstrip (s : str) : str :=
  match s with
  | [] => []
  | c :: t => if isspace c then lstrip t else s
  end.

Definition rstrip (s : str) : str := rev (lstrip (rev s)).

Definition strip (s : str) : str := rstrip (lstrip s).

(** [s.split()] with no argument: the maximal runs of non-whitespace, in
    order; [word] is the run being read. *)
Fixpoint split_from (word : str) (s : str) : list str :=
  match s with
  | [] => match word with [] => [] | _ => [word] end
  | c :: t =>
      if isspace c
      then match word with [] => split_from [] t | _ => word :: split_from [] t end
      else split_from (word ++ [c]) t
  end.

Definition split (s : str) : list str := split_from [] s.

(** [sep.join(words)]. *)
Fixpoint join (sep : str) (words : list str) : str :=
  match words with
  | [] => []
  | [w] => w
  | w :: rest => w ++ sep ++ join sep rest
  end.

(** [needle in hay] for two [str]. *)
Fixpoint startswith (hay prefix : str) : bool :=
  match prefix, hay with
  | [], _ => true
  | _ :: _, [] => false
  | p :: prefix', h :: hay' => (p =? h) && startswith hay' prefix'
  end.

Fixpoint contains (hay needle : str) : bool :=
  startswith hay needle ||
  match hay with
  | [] => false
  | _ :: hay' => contains hay' needle
  end.

Section Lower.
Context {U : UnicodeData}.

(** The lower-case form of one character standing between [before] and
    [after]. *)
Definition lower_char (before : str) (c : N) (after : str) : str :=
  if is_ascii c then [ascii_lower c] else ucd_lower before c after.

Fixpoint lower_from (before s : str) : str :=
  match s with
  | [] => []
  | c :: after => lower_char before c after ++ lower_from (before ++ [c]) after
  end.

(** [s.lower()]. *)
Definition lower (s : str) : str := lower_from [] s.

End Lower.

End Py.

(** ** Regular expressions: the part of [re] the rule table uses

    The patterns of the table are sequences of single-character atoms
    (a literal, [.], [\s], a bracketed set), each with at most one of the
    quantifiers [*], [+], [?], and the assertion [\b]. *)
Module Re.

Import Py.
Local Open Scope N_scope.

Inductive set_item : Type :=
| SetChar (c : N)
| SetRange (lo hi : N).

Inductive atom : Type :=
| LITERAL (c : N)
| ANY
| SPACE
| IN (items : list set_item).

Inductive quant : Type := Once | ZeroOrMore | OneOrMore | ZeroOrOne.

Inductive node : Type :=
| AT_BOUNDARY
| Item (a : atom) (q : quant).

Definition regex : Type := list node.

(** *** Reading a pattern *)

Definition chr (a : ascii) : N := N_of_ascii a.

Definition ascii_isalnum (c : N) : bool :=
  ascii_isupper c || ascii_islower c || ascii_isdigit c.

(** Characters with a meaning of their own at the top level of a pattern
    that the table never uses unescaped: anchors, alternation, groups and
    counted repeats. A pattern that has one is not read. *)
Definition unsupported (c : N) : bool :=
  (c =? chr "^") || (c =? chr "$") || (c =? chr "|")
  || (c =? chr "(") || (c =? chr ")") || (c =? chr "{").

(** A quantifier applies to the atom before it; there must be one, not
    yet quantified. *)
Definition quantify (q : quant) (acc : list node) : option (list node) :=
  match acc with
  | Item a Once :: acc' => Some (Item a q :: acc')
  | _ => None
  end.

(** One pass over the pattern. [inset] is [Some items] inside brackets,
    with the items read so far; [acc] holds the nodes read so far. Both are
    kept in reverse. [None] stands for [re.error], and for syntax beyond the
    part described above. *)
Fixpoint parse (inset : option (list set_item)) (acc : list node) (p : str)
  {struct p} : option regex :=
  match inset with
  | None =>
      match p with
      | [] => Some (rev acc)
      | c :: rest =>
          if c =? chr "\" then
            match rest with
            | [] => None
            | e :: rest' =>
                if e =? chr "b" then parse None (AT_BOUNDARY :: acc) rest'
                else if e =? chr "s" then parse None (Item SPACE Once :: acc) rest'
                else if ascii_isalnum e then None
                else parse None (Item (LITERAL e) Once :: acc) rest'
            end
          else if c =? chr "[" then parse (Some []) acc rest
          else if c =? chr "." then parse None (Item ANY Once :: acc) rest
          else if c =? chr "*" then
            match quantify ZeroOrMore acc with
            | Some acc' => parse None acc' rest
            | None => None
            end
          else if c =? chr "+" then
            match quantify OneOrMore acc with
            | Some acc' => parse None acc' rest
            | None => None
            end
          else if c =? chr "?" then
            match quantify ZeroOrOne acc with
            | Some acc' => parse None acc' rest
            | None => None
            end
          else if unsupported c then None
          else parse None (Item (LITERAL c) Once :: acc) rest
      end
  | Some items =>
      match p with
      | [] => None
      | c :: rest =>
          if c =? chr "]" then
            match items with
            | [] => None
            | _ => parse None (Item (IN (rev items)) Once :: acc) rest
            end
          else if c =? chr "\" then
            match rest with
            | [] => None
            | e :: rest' =>
                if ascii_isalnum e then None
                else parse (Some (SetChar e :: items)) acc rest'
            end
          else
            match rest with
            | d :: hi :: rest' =>
                if (d =? chr "-") && negb (hi =? chr "]") then
                  if hi =? chr "\" then None
                  else if c <=? hi
                       then parse (Some (SetRange c hi :: items)) acc rest'
                       else None
                else if (c =? chr "^") && (match items with [] => true | _ => false end)
                     then None
                     else parse (Some (SetChar c :: items)) acc rest
            | _ =>
                if (c =? chr "^") && (match items with [] => true | _ => false end)
                then None
                else parse (Some (SetChar c :: items)) acc rest
            end
      end
  end.

(** [re.compile(pattern)]. *)
Definition compile (pattern : string) : option regex :=
  parse None [] (str_of pattern).

(** *** Matching, with [re.IGNORECASE] *)

Section Matching.
Context {U : UnicodeData}.

(** [\w]: alphanumeric or underscore. *)
Definition word_char (c : N) : bool :=
  if is_ascii c then ascii_isalnum c || (c =? chr "_") else ucd_isalnum c.

(** The pattern character [p] matches the subject character [x]: the
    engine compares the lower-case form of [x] with what [p] stands for. *)
Definition ieq (p x : N) : bool :=
  if is_ascii p && is_ascii x then ascii_lower p =? ascii_lower x
  else ucd_ieq p (ascii_lower x).

(** Some character among the [n] from [lo] on matches [x]. *)
Fixpoint range_matches (lo : N) (n : nat) (x : N) : bool :=
  match n with
  | O => false
  | S n' => ieq lo x || range_matches (lo + 1) n' x
  end.

Definition set_item_matches (it : set_item) (x : N) : bool :=
  match it with
  | SetChar p => ieq p x
  | SetRange lo hi => range_matches lo (N.to_nat (hi + 1 - lo)) x
  end.

Definition atom_matches (a : atom) (x : N) : bool :=
  match a with
  | LITERAL p => ieq p x
  | ANY => negb (x =? 10)
  | SPACE => isspace x
  | IN items => existsb (fun it => set_item_matches it x) items
  end.

(** [\b] between [prev], the character before the position if any, and
    the rest of the subject. *)
Definition at_boundary (prev : option N) (text : str) : bool :=
  let thatp := match prev with Some c => word_char c | None => false end in
  let thisp := match text with c :: _ => word_char c | [] => false end in
  xorb thisp thatp.

(** Any number of characters matching [a], then [k]. [re.search] reports
    only whether a match exists, so the order in which the engine tries the
    alternatives does not show. *)
Fixpoint repeat_then (k : option N -> str -> bool) (a : atom)
  (prev : option N) (text : str) : bool :=
  k prev text ||
  match text with
  | [] => false
  | c :: t => atom_matches a c && repeat_then k a (Some c) t
  end.

Definition one_then (k : option N -> str -> bool) (a : atom) (text : str) : bool :=
  match text with
  | [] => false
  | c :: t => atom_matches a c && k (Some c) t
  end.

(** The pattern matches some prefix of [text], which follows [prev]. *)
Fixpoint match_at (re : regex) (prev : option N) (text : str) : bool :=
  match re with
  | [] => true
  | AT_BOUNDARY :: re' => at_boundary prev text && match_at re' prev text
  | Item a q :: re' =>
      match q with
      | Once => one_then (match_at re') a text
      | ZeroOrOne => one_then (match_at re') a text || match_at re' prev text
      | ZeroOrMore => repeat_then (match_at re') a prev text
      | OneOrMore => one_then (repeat_then (match_at re') a) a text
      end
  end.

(** The pattern matches at some position of the subject. *)
Fixpoint search_from (re : regex) (prev : option N) (text : str) : bool :=
  match_at re prev text ||
  match text with
  | [] => false
  | c :: t => search_from re (Some c) t
  end.

(** [re.search(pattern, text, re.IGNORECASE)], as a truth value. *)
Definition search (pattern : string) (text : str) : res bool :=
  match compile pattern with
  | Some re => Returns (search_from re None text)
  | None => Raises re_error
  end.

End Matching.

End Re.

(** ** The filter: class [CommandSafety] *)

Local Open Scope string_scope.

(** The class attributes [check] reads through [cls]. *)
Record RuleTables : Type := {
  DANGEROUS_PATTERNS : list (string * string);
  DANGEROUS_SUBSTRINGS : list string
}.

Definition CommandSafety : RuleTables := {|
  DANGEROUS_PATTERNS := [
    ("\brm\s+-rf\s+[/~\$]", "Recursive delete of root or home");
    ("\brm\s+-rf\s+/", "Recursive delete including root path");
    ("del\s+/[sq]\s+", "Delete with /s /q (tree wipe)");
    ("rd\s+/[sq]\s+", "Remove directory tree");
    ("\bformat\s+", "Disk format");
    ("Format-Volume", "Format volume");
    ("Clear-Disk", "Clear disk");
    ("Remove-Item\s+.*-Path\s+['\" ++ dquote ++ "]?[/\\]",
       "Remove from root or system path");
    ("dd\s+.*of=/dev/sd", "Raw disk write");
    (">\s*/dev/sd[a-z]", "Overwrite block device");
    (">\s*/dev/nvme", "Overwrite NVMe");
    ("\bshutdown\s+", "System shutdown");
    ("\breboot\b", "System reboot");
    ("Restart-Computer", "Restart computer");
    ("Stop-Computer", "Stop computer");
    ("Stop-Process\s+-Id\s+1", "Kill init process");
    ("\bbcdedit\s+", "Boot config edit");
    ("reg\s+delete", "Registry delete");
    (":\(\)\s*\{", "Fork bomb pattern");
    ("\$\s*\(\s*\$\s*\)", "Fork bomb ($())");
    ("Disable-WindowsOptionalFeature", "Disable Windows feature");
    ("wmic\s+diskdrive\s+delete", "Delete disk via WMIC");
    ("DROP\s+DATABASE", "Drop database");
    ("DROP\s+TABLE\s+.*\*", "Drop all tables");
    ("TRUNCATE\s+", "Truncate table")
  ];
  DANGEROUS_SUBSTRINGS := [
    "rm -rf /";
    "rm -rf ~";
    "rm -rf /*";
    "rm -rf / ";
    "rm -rf $";
    "format c:";
    "format d:";
    "mkfs.ext";
    "mkfs.ntfs";
    ":(){ :|:& };:";
    "chmod -R 777 /";
    "chown -R"
  ]
|}.

Section Check.
Context {U : UnicodeData}.

(** [substr.lower() in cmd_lower]. *)
Definition substring_matches (cmd_lower : str) (substr : string) : bool :=
  Py.contains cmd_lower (Py.lower (str_of substr)).

(** The first loop: the first literal found in [cmd_lower], if any. *)
Fixpoint first_substring (substrings : list string) (cmd_lower : str)
  : option string :=
  match substrings with
  | [] => None
  | substr :: rest =>
      if substring_matches cmd_lower substr then Some substr
      else first_substring rest cmd_lower
  end.

(** The second loop: the reason of the first pattern found in [cmd_norm],
    if any; a pattern that does not compile raises when the loop reaches
    it. *)
Fixpoint first_pattern (patterns : list (string * string)) (cmd_norm : str)
  : res (option string) :=
  match patterns with
  | [] => Returns None
  | (pattern, reason) :: rest =>
      match Re.search pattern cmd_norm with
      | Raises e => Raises e
      | Returns true => Returns (Some reason)
      | Returns false => first_pattern rest cmd_norm
      end
  end.

(** [not s]. *)
Definition is_empty (s : str) : bool :=
  match s with [] => true | _ => false end.

(** [cmd.strip().lower()]. *)
Definition cmd_lower_of (cmd : str) : str := Py.lower (Py.strip cmd).

(** [" ".join(cmd.split())]. *)
Definition cmd_norm_of (cmd : str) : str := Py.join (str_of " ") (Py.split cmd).

(** [CommandSafety.check(cmd)]: the pair [(is_safe, block_reason)]. *)
Definition check (cls : RuleTables) (cmd : str) : res (bool * string) :=
  if is_empty cmd || is_empty (Py.strip cmd) then Returns (true, "")
  else
    let cmd_lower := cmd_lower_of cmd in
    let cmd_norm := cmd_norm_of cmd in
    match first_substring (DANGEROUS_SUBSTRINGS cls) cmd_lower with
    | Some substr =>
        Returns (false, "Blocked: potentially destructive (" ++ substr ++ ")")
    | None =>
        match first_pattern (DANGEROUS_PATTERNS cls) cmd_norm with
        | Raises e => Raises e
        | Returns (Some reason) => Returns (false, "Blocked: " ++ reason)
        | Returns None => Returns (true, "")
        end
    end.

End Check.

(** The rule predicates the statements below speak of: a pattern is found
    in the normalized command, some literal of the table is found in the
    lower-cased command, some pattern of the table is found in the
    normalized command, a pattern compiles. *)
Section Rules.
Context {U : UnicodeData}.

Definition pattern_matches (cmd_norm : str) (pattern : string) : bool :=
  match Re.search pattern cmd_norm with
  | Returns true => true
  | _ => false
  end.

Definition some_substring_matches (cls : RuleTables) (cmd : str) : bool :=
  existsb (substring_matches (cmd_lower_of cmd)) (DANGEROUS_SUBSTRINGS cls).

Definition some_pattern_matches (cls : RuleTables) (cmd : str) : bool :=
  existsb (fun rule => pattern_matches (cmd_norm_of cmd) (fst rule))
          (DANGEROUS_PATTERNS cls).

Definition compiles (rule : string * string) : bool :=
  match Re.compile (fst rule) with Some _ => true | None => false end.

End Rules.

(** A string starts with a character that is not whitespace. *)
Definition starts_nonspace (s : str) : bool :=
  match s with
  | [] => false
  | c :: _ => negb (Py.isspace c)
  end.

(** ** The process around a call of [check]

    What a call of [check] reaches of the state of the process: the class
    object, whose two attributes hold the tables, and the cache of compiled
    patterns of the module [re] ([re._cache], as in CPython 3.11), which
    [re.search] reads and fills. A call is a transformer of that state. *)
Module Process.

(** [re.IGNORECASE.value]. *)
Definition IGNORECASE : Z := 2%Z.

Definition _MAXCACHE : nat := 512.

(** [re._cache]: from a pattern (a [str]) and the flags to the compiled
    pattern, in the order of insertion. Entries made with other flags are
    those of other callers. *)
Definition cache : Type := list ((string * Z) * Re.regex).

Record state : Type := {
  cls : RuleTables;
  _cache : cache
}.

Definition St (A : Type) : Type := state -> res A * state.

Definition key_eqb (k1 k2 : string * Z) : bool :=
  String.eqb (fst k1) (fst k2) && Z.eqb (snd k1) (snd k2).

(** [_cache[key]], with [None] for [KeyError]. *)
Fixpoint cache_get (key : string * Z) (c : cache) : option Re.regex :=
  match c with
  | [] => None
  | (k, p) :: rest => if key_eqb k key then Some p else cache_get key rest
  end.

(** [re._compile(pattern, re.IGNORECASE)]: the cached pattern if there is
    one; otherwise the pattern is compiled and stored, after the oldest
    entry is dropped from a full cache. A pattern that does not compile
    raises and stores nothing. *)
Definition _compile (pattern : string) : St Re.regex :=
  fun s =>
    match cache_get (pattern, IGNORECASE) (_cache s) with
    | Some p => (Returns p, s)
    | None =>
        match Re.compile pattern with
        | None => (Raises re_error, s)
        | Some p =>
            let kept :=
              if Nat.leb _MAXCACHE (List.length (_cache s))
              then tl (_cache s) else _cache s in
            (Returns p,
             {| cls := cls s;
                _cache := (kept ++ [((pattern, IGNORECASE), p)])%list |})
        end
    end.


Section WithUnicode.
Context {U : UnicodeData}.

(** [re.search(pattern, text, re.IGNORECASE)], as a truth value. *)
Definition search (pattern : string) (text : str) : St bool :=
  fun s =>
    match _compile pattern s with
    | (Returns p, s') => (Returns (Re.search_from p None text), s')
    | (Raises e, s') => (Raises e, s')
    end.

(** The second loop of [check]. *)
Fixpoint pattern_loop (patterns : list (string * string)) (cmd_norm : str)
  : St (option string) :=
  fun s =>
    match patterns with
    | [] => (Returns None, s)
    | (pattern, reason) :: rest =>
        match search pattern cmd_norm s with
        | (Raises e, s') => (Raises e, s')
        | (Returns true, s') => (Returns (Some reason), s')
        | (Returns false, s') => pattern_loop rest cmd_norm s'
        end
    end.

(** [CommandSafety.check(cmd)] in a process: the two tables are read from
    the class object when their loop starts. *)
Definition check (cmd : str) : St (bool * string) :=
  fun s =>
    if is_empty cmd || is_empty (Py.strip cmd) then (Returns (true, ""), s)
    else
      let cmd_lower := cmd_lower_of cmd in
      let cmd_norm := cmd_norm_of cmd in
      match first_substring (DANGEROUS_SUBSTRINGS (cls s)) cmd_lower with
      | Some substr =>
          (Returns (false, "Blocked: potentially destructive (" ++ substr ++ ")"), s)
      | None =>
          match pattern_loop (DANGEROUS_PATTERNS (cls s)) cmd_norm s with
          | (Raises e, s') => (Raises e, s')
          | (Returns (Some reason), s') => (Returns (false, "Blocked: " ++ reason), s')
          | (Returns None, s') => (Returns (true, ""), s')
          end
      end.

End WithUnicode.

End Process.

(** * The application: [src/app.py] and [src/ZaneAI.py]

    The windows, the threads, the AI service and the processes the
    application starts are outside this development. What is embedded is
    what the application computes around them: the reading of the
    environment, the choice of the client's settings, the retry loop over
    the calls of the service, and the summary of an update's output. *)

(** ** More of [str] *)
Module PyStr.

Import Py.
Local Open Scope N_scope.
Local Open Scope list_scope.

(** [bool(s)]: a string is true when it is not empty. *)
Definition truthy (s : str) : bool :=
  match s with [] => false | _ => true end.

(** [a or b] on two strings. *)
Definition or_else (a b : str) : str := if truthy a then a else b.

(** [s.endswith(suffix)]. *)
Definition endswith (s suffix : str) : bool := startswith (rev s) (rev suffix).

(** [str(n)] for a natural number, as an f-string prints it. *)
Definition decimal (n : nat) : str :=
  str_of (NilEmpty.string_of_uint (Nat.to_uint n)).

(** The line boundaries of [str.splitlines]. *)
Definition is_linebreak (c : N) : bool :=
  ((10 <=? c) && (c <=? 13)) || ((28 <=? c) && (c <=? 30))
  || (c =? 133) || (c =? 8232) || (c =? 8233).

(** [s.splitlines()]: the lines without their ends; a carriage return
    followed by a line feed ends one line; [line] is the line being
    read. *)
Fixpoint splitlines_from (line : str) (s : str) : list str :=
  match s with
  | [] => match line with [] => [] | _ => [line] end
  | c :: t =>
      if is_linebreak c then
        match t with
        | d :: t' =>
            if (c =? 13) && (d =? 10)
            then line :: splitlines_from [] t'
            else line :: splitlines_from [] t
        | [] => line :: splitlines_from [] t
        end
      else splitlines_from (line ++ [c]) t
  end.

Definition splitlines (s : str) : list str := splitlines_from [] s.

(** [s.split(sep)] for a separator of one character; [piece] is the
    piece being read. *)
Fixpoint split_on_from (sep : N) (piece : str) (s : str) : list str :=
  match s with
  | [] => [piece]
  | c :: t =>
      if c =? sep then piece :: split_on_from sep [] t
      else split_on_from sep (piece ++ [c]) t
  end.

Definition split_on (sep : N) (s : str) : list str := split_on_from sep [] s.

(** What stands before and after the first [sep] of a string that has
    one. *)
Fixpoint before_first (sep : N) (s : str) : str :=
  match s with
  | [] => []
  | c :: t => if c =? sep then [] else c :: before_first sep t
  end.

Fixpoint after_first (sep : N) (s : str) : str :=
  match s with
  | [] => []
  | c :: t => if c =? sep then t else after_first sep t
  end.

(** [s.rsplit(sep, 1)] for a separator of one character that [s] holds:
    what stands before the last [sep], and what stands after it. *)
Definition rsplit_last (sep : N) (s : str) : str * str :=
  (rev (after_first sep (rev s)), rev (before_first sep (rev s))).

End PyStr.

Module App.

Import Py PyStr.

(** *** [get_env] *)

(** [os.environ]: the variables that are set, with their values. *)
Definition environ : Type := string -> option str.

(** [os.getenv(key, default)]. *)
Definition getenv (env : environ) (key : string) (default : str) : str :=
  match env key with
  | Some val => val
  | None => default
  end.

(** [get_env(key, default)] of [app.py], the same as [_get_env] of
    [ZaneAI.py]. *)
Definition get_env (env : environ) (key : string) (default : str) : str :=
  let val := getenv env key default in
  if truthy val && startswith val (str_of "__") && endswith val (str_of "__")
  then []
  else or_else val default.

(** A value of the form [__...__], as the template of [.env] has them. *)
Definition is_placeholder (val : str) : bool :=
  truthy val && startswith val (str_of "__") && endswith val (str_of "__").

(** *** The client's settings *)

(** The keyword arguments the [OpenAI] client is built with. *)
Record client : Type := {
  api_key : str;
  base_url : option str
}.

Definition openrouter_url : str := str_of "https://openrouter.ai/api/v1".

(** [self.model], as [__init__] sets it. *)
Definition model_of (env : environ) : str :=
  get_env env "OPENAI_MODEL" (str_of "gpt-4o-mini").

(** [TerminalHelperApp._init_openai]: the value left in [self.client].
    [OpenAI] says whether the import of the library succeeded. *)
Definition _init_openai (env : environ) (OpenAI : bool) (model : str)
  : option client :=
  let api_key := or_else (get_env env "OPENROUTER_API_KEY" [])
                         (get_env env "OPENAI_API_KEY" []) in
  let base_url := get_env env "OPENAI_BASE_URL" [] in
  let base_url :=
    if negb (truthy base_url)
       && (truthy (get_env env "OPENROUTER_API_KEY" [])
           || contains model (str_of "/"))
    then openrouter_url
    else base_url in
  if truthy api_key && OpenAI
  then Some {| api_key := api_key;
               base_url := if truthy base_url then Some base_url else None |}
  else None.

(** [ZaneGUI._init_client] of [ZaneAI.py]: [self.client] starts as [None]
    and is set only in the last branch. *)
Definition _init_client (env : environ) (OpenAI : bool) (model : str)
  : option client :=
  let api_key := or_else (get_env env "OPENAI_API_KEY" [])
                         (get_env env "OPENROUTER_API_KEY" []) in
  let base_url := get_env env "OPENAI_BASE_URL" [] in
  let base_url :=
    if negb (truthy base_url) && contains model (str_of "/")
    then openrouter_url
    else base_url in
  if truthy api_key && OpenAI
  then Some {| api_key := api_key;
               base_url := if truthy base_url then Some base_url else None |}
  else None.

Section WithUnicode.
Context {U : UnicodeData}.

(** *** The retry loop *)

(** What one call of [self.client.chat.completions.create] with the
    reading of its answer does: it gives the text of the answer, or
    raises an exception, of which the loop reads [str(e)]. *)
Inductive api_outcome : Type :=
| Responds (content : str)
| Fails (message : str).

(** How [_call_ai_with_retry] ends. *)
Inductive retry_exit : Type :=
| Returned (content : str)
| Reraised (message : str)
| RuntimeError (message : str)
| RaisedLast (last_exc : option str).

(** What it does on the way. *)
Inductive effect : Type :=
| ApiCall
| Log (line : str)
| Sleep (seconds : nat).

(** [TerminalHelperApp._format_rate_limit_error], on [str(e)]. *)
Definition _format_rate_limit_error (s : str) : str :=
  if contains s (str_of "rate-limited") || contains s (str_of "rate limit")
  then str_of ("Rate limit exceeded. The free model is temporarily overloaded. "
               ++ "Wait a minute and try again, or add your own provider key at "
               ++ "https://openrouter.ai/settings/integrations for higher limits.")
  else s.

(** The test of the [except] branch: ["429" in err_str or "rate" in err_str]
    with [err_str = str(e).lower()]. *)
Definition is_rate_limit (message : str) : bool :=
  let err_str := lower message in
  contains err_str (str_of "429") || contains err_str (str_of "rate").

(** The line logged before a sleep; it starts with the hourglass sign. *)
Definition retry_line (wait : nat) : str :=
  ([9203%N] ++ str_of " Rate limited. Retrying in " ++ decimal wait ++ str_of "s...")%list.

(** The loop [for attempt in range(max_retries + 1)] from [attempt] on,
    with [remaining] turns left; [api n] is the outcome of the call made
    in turn [n]. The last line of the function, [raise last_exc], is what
    is left when no turn is. *)
Fixpoint retry_from (api : nat -> api_outcome) (max_retries remaining attempt : nat)
         (last_exc : option str) : retry_exit * list effect :=
  match remaining with
  | O => (RaisedLast last_exc, [])
  | S remaining' =>
      match api attempt with
      | Responds content => (Returned (strip content), [ApiCall])
      | Fails message =>
          if is_rate_limit message then
            if Nat.ltb attempt max_retries then
              let wait := Nat.pow 2 (attempt + 1) in
              let (exit, effects) :=
                retry_from api max_retries remaining' (S attempt) (Some message) in
              (exit, ApiCall :: Log (retry_line wait) :: Sleep wait :: effects)
            else (RuntimeError (_format_rate_limit_error message), [ApiCall])
          else (Reraised message, [ApiCall])
      end
  end.

(** [TerminalHelperApp._call_ai_with_retry(max_retries)]. *)
Definition _call_ai_with_retry (api : nat -> api_outcome) (max_retries : nat)
  : retry_exit * list effect :=
  retry_from api max_retries (max_retries + 1) 0 None.

(** The effects of [k] turns in a row that end in a retry, from turn
    [attempt] on. *)
Definition retried (attempt k : nat) : list effect :=
  flat_map (fun i => [ApiCall; Log (retry_line (Nat.pow 2 (i + 1)));
                      Sleep (Nat.pow 2 (i + 1))])
           (seq attempt k).

(** The calls made and the seconds slept, read off the effects. *)
Definition calls (effects : list effect) : nat :=
  List.length (filter (fun e => match e with ApiCall => true | _ => false end) effects).

Fixpoint sleeps (effects : list effect) : list nat :=
  match effects with
  | [] => []
  | Sleep seconds :: rest => seconds :: sleeps rest
  | _ :: rest => sleeps rest
  end.

(** *** The summary of an update *)

(** [TerminalHelperApp._summarize_update_output(source, success, out)]. *)
Definition _summarize_update_output (source : str) (success : bool) (out : str) : str :=
  if success then
    let out_lower := lower out in
    if contains out_lower (str_of "requirement already satisfied")
       || contains out_lower (str_of "already up-to-date")
    then str_of "Already up to date"
    else if contains out_lower (str_of "successfully installed")
    then str_of "Installed successfully"
    else if contains out_lower (str_of "defaulting to user installation")
    then str_of "Updated (user install)"
    else str_of "Success"
  else if truthy out then firstn 300 (strip out) else str_of "Failed".

End WithUnicode.

(** *** Processes *)

(** How [subprocess.run] is called: with a list of arguments, or with a
    command line for the shell ([shell=True]). *)
Inductive invocation : Type :=
| Argv (args : list str)
| Shell (command : str).

(** What a call of [subprocess.run] does: the process completes, or the
    call raises an exception of one of three kinds, with its [str(e)]. *)
Inductive run_error : Type := TimeoutExpired | FileNotFoundError | OtherError.

Inductive run_outcome : Type :=
| Completed (returncode : Z) (stdout stderr : str)
| RunRaises (e : run_error) (message : str).

(** The machine the application runs on: what each call of
    [subprocess.run] does, given the calls made before it. *)
Definition runner : Type := list invocation -> invocation -> run_outcome.

(** [TerminalHelperApp._run_shell_command(cmd)], up to the outcome; [nt]
    is [os.name == "nt"]. *)
Definition _run_shell_command (nt : bool) (cmd : str) : invocation :=
  if nt
  then Argv [str_of "powershell"; str_of "-NoProfile"; str_of "-ExecutionPolicy";
             str_of "Bypass"; str_of "-Command"; cmd]
  else Shell cmd.

(** What [_run_commands] reads and writes of the window: the pending
    commands (each with its description), the lines of the output area,
    and whether the button is enabled. *)
Record window : Type := {
  pending_commands : list (str * str);
  output_lines : list str;
  exec_enabled : bool
}.

(** The loop of [_run_commands] over the pending commands: [ran] are the
    calls made so far, [lines] the lines logged so far. *)
Fixpoint run_each (run : runner) (nt : bool) (items : list (str * str))
         (ran : list invocation) (lines : list str)
  : list invocation * list str :=
  match items with
  | [] => (ran, lines)
  | (cmd, _) :: rest =>
      let call := _run_shell_command nt cmd in
      let out :=
        match run ran call with
        | Completed _ stdout stderr =>
            or_else stdout (or_else stderr (str_of "(no output)"))
        | RunRaises _ message => (str_of "Error: " ++ message)%list
        end in
      run_each run nt rest (ran ++ [call])
               (lines ++ [([9654%N] ++ str_of " Executing: " ++ cmd)%list; out])
  end.

(** [TerminalHelperApp._run_commands]: the window and the calls made
    after it, from the window and the calls made before it. *)
Definition _run_commands (run : runner) (nt : bool) (w : window)
           (ran : list invocation) : window * list invocation :=
  match pending_commands w with
  | [] => (w, ran)
  | items =>
      let (ran', lines') := run_each run nt items ran (output_lines w) in
      ({| pending_commands := []; output_lines := lines'; exec_enabled := false |},
       ran')
  end.

(** [s == t] on two strings. *)
Definition str_eqb (s t : str) : bool :=
  if list_eq_dec N.eq_dec s t then true else false.

(** [UpdateScanner.run_update(source, pkg_id)]: the pair
    [(success, output)] and the calls of [subprocess.run] made, after the
    calls [ran]; [python] is [sys.executable]. *)
Definition run_update (run : runner) (python : str) (ran : list invocation)
           (source pkg_id : str) : (bool * str) * list invocation :=
  let finish (call : invocation) :=
    match run ran call with
    | Completed returncode stdout stderr =>
        ((Z.eqb returncode 0, or_else stdout (or_else stderr [])), [call])
    | RunRaises _ message => ((false, message), [call])
    end in
  if str_eqb source (str_of "winget") then
    finish (Argv [str_of "winget"; str_of "upgrade"; str_of "--id"; pkg_id;
                  str_of "--accept-package-agreements";
                  str_of "--accept-source-agreements"])
  else if str_eqb source (str_of "pip") then
    finish (Argv [python; str_of "-m"; str_of "pip"; str_of "install";
                  str_of "--upgrade"; pkg_id])
  else if str_eqb source (str_of "apt") then
    finish (Argv [str_of "sudo"; str_of "apt"; str_of "install";
                  str_of "--only-upgrade"; str_of "-y"; pkg_id])
  else if str_eqb source (str_of "npm") then
    finish (Argv [str_of "npm"; str_of "install"; (pkg_id ++ str_of "@latest")%list])
  else ((false, (str_of "Unknown source: " ++ source)%list), []).

(** *** The scan for outdated packages, on Linux *)

(** An entry of the list [get_outdated_packages] returns: a dictionary
    with the keys [source], [name], [id], [current], [available]. *)
Record package : Type := {
  pkg_source : string;
  pkg_name : str;
  pkg_id : str;
  pkg_current : str;
  pkg_available : str
}.

(** The loop over the output of [apt list --upgradable]. *)
Definition apt_packages (stdout : str) : list package :=
  flat_map
    (fun line =>
       if contains line (str_of "/") then
         let name_ver := hd [] (split_on 47 line) in
         let (name, current) :=
           if contains name_ver (str_of " ")
           then rsplit_last 32 name_ver
           else (name_ver, str_of "?") in
         [{| pkg_source := "apt"; pkg_name := name; pkg_id := name;
             pkg_current := current; pkg_available := str_of "?" |}]
       else [])
    (skipn 1 (splitlines stdout)).

(** The loop over the output of [pip list --outdated]. *)
Definition pip_packages (stdout : str) : list package :=
  flat_map
    (fun line =>
       match split line with
       | p0 :: p1 :: p2 :: _ =>
           [{| pkg_source := "pip"; pkg_name := p0; pkg_id := p0;
               pkg_current := p1; pkg_available := p2 |}]
       | _ => []
       end)
    (skipn 2 (splitlines stdout)).

(** The two processes of the scan on Linux; [python] is
    [sys.executable]. *)
Definition apt_list : invocation :=
  Argv [str_of "apt"; str_of "list"; str_of "--upgradable"].

Definition pip_list (python : str) : invocation :=
  Argv [python; str_of "-m"; str_of "pip"; str_of "list"; str_of "--outdated"].

(** How [get_outdated_packages] ends: with the list, or with an
    exception it lets through. *)
Inductive scan_exit : Type :=
| Scanned (results : list package)
| ScanRaises (e : run_error) (message : str).

(** [UpdateScanner.get_outdated_packages] where [is_windows] is false:
    the [apt] step, whose handler catches the timeout and the missing
    program only, then the [pip] step, whose handler catches
    everything. *)
Definition get_outdated_packages_linux (run : runner) (python : str)
           (ran : list invocation) : scan_exit * list invocation :=
  let apt := apt_list in
  let pip := pip_list python in
  let pip_step (results : list package) :=
    match run (ran ++ [apt])%list pip with
    | Completed returncode stdout _ =>
        if Z.eqb returncode 0 then (results ++ pip_packages stdout)%list else results
    | RunRaises _ _ => results
    end in
  match run ran apt with
  | Completed returncode stdout _ =>
      (Scanned (pip_step (if Z.eqb returncode 0 then apt_packages stdout else [])),
       (ran ++ [apt; pip])%list)
  | RunRaises OtherError message =>
      (ScanRaises OtherError message, (ran ++ [apt])%list)
  | RunRaises _ _ => (Scanned (pip_step []), (ran ++ [apt; pip])%list)
  end.

(** *** [src/main.py]: what follows the answer of the model *)

(** What [ollama.chat] with the reading of its answer does. *)
Inductive chat_outcome : Type :=
| ChatReplies (content : str)
| ChatRaises (message : str).

(** What [AuraGUI.ai_logic] reads and writes of the window: the
    conversation, as pairs of a role and a content, and the lines of the
    output area. *)
Record aura : Type := {
  history : list (string * str);
  aura_lines : list str
}.

Section Aura.
Context {U : UnicodeData}.

(** [AuraGUI.ai_logic(user_text)], given what the model does. *)
Definition ai_logic (run : runner) (ran : list invocation) (w : aura)
           (user_text : str) (reply : chat_outcome) : aura * list invocation :=
  let history1 := (history w ++ [("user"%string, user_text)])%list in
  match reply with
  | ChatRaises message =>
      ({| history := history1;
          aura_lines := aura_lines w ++ [str_of "Error: " ++ message] |}%list, ran)
  | ChatReplies content =>
      let ai_command := strip content in
      if truthy ai_command
         && negb (existsb (fun x => contains (lower ai_command) (str_of x))
                          ["hello"; "sorry"; "i am"]%string)
      then
        let lines1 := (aura_lines w ++ [str_of "AI Suggestion: " ++ ai_command])%list in
        match run ran (Shell ai_command) with
        | Completed returncode stdout stderr =>
            let output := if Z.eqb returncode 0 then stdout else stderr in
            ({| history := history1
                           ++ [("assistant"%string, str_of "Command output: " ++ output)];
                aura_lines := lines1 ++ [str_of "Output:" ++ [10%N] ++ output] |}%list,
             (ran ++ [Shell ai_command])%list)
        | RunRaises _ message =>
            ({| history := history1;
                aura_lines := lines1 ++ [str_of "Error: " ++ message] |}%list,
             (ran ++ [Shell ai_command])%list)
        end
      else
        ({| history := history1;
            aura_lines := aura_lines w ++ [str_of "Aura: " ++ ai_command] |}%list, ran)
  end.

End Aura.

End App.

(** ** Concrete environments, services and machines *)

Module Instances.

Import Py PyStr App.
Local Open Scope list_scope.

(** An environment as the template of [.env] leaves it once the key of
    OpenRouter is filled in: the other key is still a placeholder. *)
Definition openrouter_env : environ :=
  fun key =>
    if String.eqb key "OPENROUTER_API_KEY" then Some (str_of "sk-or-v1-0123")
    else if String.eqb key "OPENAI_API_KEY" then Some (str_of "__OPENAI_API_KEY__")
    else None.

(** A service that is rate-limited once, then answers. *)
Definition limited_once (attempt : nat) : api_outcome :=
  match attempt with
  | O => Fails (str_of "Error code: 429")
  | S _ => Responds (str_of "  ls -la ")
  end.

(** A service that is rate-limited at every call. *)
Definition always_limited (attempt : nat) : api_outcome :=
  Fails (str_of "Error code: 429 - provider is rate-limited upstream").


(** A machine on which every process completes with no output. *)
Definition quiet : runner := fun _ _ => Completed 0 [] [].

(** A machine with [apt] and one package to upgrade, and without [pip]. *)
Definition apt_only : runner :=
  fun _ call =>
    match call with
    | Argv (program :: _) =>
        if str_eqb program (str_of "apt")
        then Completed 0 (str_of "Listing..." ++ [10%N]
                          ++ str_of "vim/stable 2:9.0.1378-2 amd64 [upgradable from: 2:9.0.1000-1]"
                          ++ [10%N]) []
        else RunRaises FileNotFoundError (str_of "No such file or directory")
    | _ => RunRaises OtherError []
    end.

End Instances.

(** * Facts about the string methods *)

Section StringFacts.

Import Py.
Local Open Scope N_scope.
Local Open Scope list_scope.

Lemma lstrip_all_space (s : str) :
  forallb isspace s = true -> lstrip s = [].
Proof.
  induction s as [|c t IH]; simpl; [reflexivity|].
  intros H. apply andb_prop in H as [Hc Ht].
  rewrite Hc. exact (IH Ht).
Qed.

Lemma lstrip_nil_inv (s : str) :
  lstrip s = [] -> forallb isspace s = true.
Proof.
  induction s as [|c t IH]; simpl; [reflexivity|].
  destruct (isspace c); [exact IH | discriminate].
Qed.

Lemma lstrip_starts_nonspace (s : str) :
  lstrip s = [] \/ starts_nonspace (lstrip s) = true.
Proof.
  induction s as [|c t IH]; simpl; [now left|].
  destruct (isspace c) eqn:Hc; [exact IH|].
  right. simpl. now rewrite Hc.
Qed.

Lemma forallb_rev_eq (f : N -> bool) (s : str) :
  forallb f (rev s) = forallb f s.
Proof.
  induction s as [|c t IH]; simpl; [reflexivity|].
  rewrite forallb_app, IH. simpl. rewrite andb_true_r. apply andb_comm.
Qed.

Lemma strip_all_space (s : str) :
  forallb isspace s = true -> strip s = [].
Proof.
  intros H. unfold strip, rstrip. now rewrite (lstrip_all_space _ H).
Qed.

Lemma strip_nil_inv (s : str) :
  strip s = [] -> forallb isspace s = true.
Proof.
  unfold strip, rstrip. intros H.
  assert (Hr : lstrip (rev (lstrip s)) = []).
  { rewrite <- (rev_involutive (lstrip (rev (lstrip s)))), H. reflexivity. }
  apply lstrip_nil_inv in Hr. rewrite forallb_rev_eq in Hr.
  destruct (lstrip_starts_nonspace s) as [Hn|Hn].
  - now apply lstrip_nil_inv.
  - destruct (lstrip s) as [|c t]; [discriminate|].
    simpl in Hn, Hr. apply andb_prop in Hr as [Hc _].
    rewrite Hc in Hn. discriminate.
Qed.

Lemma split_from_all_space (s : str) :
  forallb isspace s = true -> split_from [] s = [].
Proof.
  induction s as [|c t IH]; simpl; [reflexivity|].
  intros H. apply andb_prop in H as [Hc Ht].
  rewrite Hc. exact (IH Ht).
Qed.

Lemma lstrip_skip_space (ws s : str) :
  forallb isspace ws = true -> lstrip (ws ++ s) = lstrip s.
Proof.
  induction ws as [|c t IH]; simpl; [reflexivity|].
  intros H. apply andb_prop in H as [Hc Ht].
  rewrite Hc. exact (IH Ht).
Qed.

Lemma lstrip_nonspace (s : str) :
  starts_nonspace s = true -> lstrip s = s.
Proof.
  destruct s as [|c t]; simpl; [discriminate|].
  intros H. now destruct (isspace c).
Qed.

Lemma starts_nonspace_app (s t : str) :
  starts_nonspace s = true -> starts_nonspace (s ++ t) = true.
Proof.
  destruct s; simpl; [discriminate | trivial].
Qed.

(** Whitespace around a word that starts and ends with other characters
    is what [strip] removes. *)
Lemma strip_padded (ws1 w ws2 : str) :
  forallb isspace ws1 = true -> forallb isspace ws2 = true ->
  starts_nonspace w = true -> starts_nonspace (rev w) = true ->
  strip (ws1 ++ w ++ ws2) = w.
Proof.
  intros H1 H2 Hw Hr. unfold strip, rstrip.
  rewrite (lstrip_skip_space _ _ H1).
  rewrite (lstrip_nonspace _ (starts_nonspace_app _ _ Hw)).
  rewrite rev_app_distr, lstrip_skip_space by now rewrite forallb_rev_eq.
  rewrite (lstrip_nonspace _ Hr). apply rev_involutive.
Qed.

(** Wherever a word that starts and ends with non-whitespace stands in a
    string, it still stands in the stripped string. *)
Lemma lstrip_keeps (pre w : str) :
  starts_nonspace w = true -> exists pre', lstrip (pre ++ w) = pre' ++ w.
Proof.
  intros Hw. induction pre as [|c t IH]; simpl.
  - exists []. now apply lstrip_nonspace.
  - destruct (isspace c); [exact IH | now exists (c :: t)].
Qed.

Lemma strip_keeps (pre w post : str) :
  starts_nonspace w = true -> starts_nonspace (rev w) = true ->
  exists pre' post', strip (pre ++ w ++ post) = pre' ++ w ++ post'.
Proof.
  intros Hw Hr. unfold strip, rstrip.
  destruct (lstrip_keeps pre (w ++ post) (starts_nonspace_app _ _ Hw)) as [pre' E].
  rewrite E.
  rewrite !rev_app_distr, <- app_assoc.
  destruct (lstrip_keeps (rev post) (rev w ++ rev pre')
              (starts_nonspace_app _ _ Hr)) as [post' E'].
  rewrite E'. exists pre', (rev post').
  rewrite !rev_app_distr, !rev_involutive, <- app_assoc. reflexivity.
Qed.

Lemma split_from_skip_space (ws s : str) :
  forallb isspace ws = true -> split_from [] (ws ++ s) = split_from [] s.
Proof.
  induction ws as [|c t IH]; simpl; [reflexivity|].
  intros H. apply andb_prop in H as [Hc Ht].
  rewrite Hc. exact (IH Ht).
Qed.

Lemma split_from_word (acc w s : str) :
  forallb (fun c => negb (isspace c)) w = true ->
  split_from acc (w ++ s) = split_from (acc ++ w) s.
Proof.
  revert acc. induction w as [|c t IH]; simpl; intros acc H.
  - now rewrite app_nil_r.
  - apply andb_prop in H as [Hc Ht].
    destruct (isspace c); [discriminate|].
    rewrite (IH _ Ht), <- app_assoc. reflexivity.
Qed.

Lemma split_from_trailing_space (acc ws : str) :
  acc <> [] -> forallb isspace ws = true -> split_from acc ws = [acc].
Proof.
  intros Hacc H. destruct ws as [|c t]; simpl.
  - destruct acc; [contradiction | reflexivity].
  - simpl in H. apply andb_prop in H as [Hc Ht]. rewrite Hc.
    rewrite (split_from_all_space _ Ht).
    destruct acc; [contradiction | reflexivity].
Qed.

(** A single word with whitespace around it splits into that word. *)
Lemma split_padded (ws1 w ws2 : str) :
  forallb isspace ws1 = true -> forallb isspace ws2 = true ->
  w <> [] -> forallb (fun c => negb (isspace c)) w = true ->
  split (ws1 ++ w ++ ws2) = [w].
Proof.
  intros H1 H2 Hne Hw. unfold split.
  rewrite (split_from_skip_space _ _ H1), (split_from_word _ _ _ Hw).
  now apply split_from_trailing_space.
Qed.

End StringFacts.

Section LowerFacts.
Context {U : UnicodeData}.

Import Py.
Local Open Scope N_scope.
Local Open Scope list_scope.

Lemma lower_from_skip (before pre rest : str) :
  exists x, lower_from before (pre ++ rest) = x ++ lower_from (before ++ pre) rest.
Proof.
  revert before. induction pre as [|c t IH]; intros before; simpl.
  - exists []. now rewrite app_nil_r.
  - destruct (IH (before ++ [c])) as [x E].
    exists (lower_char before c (t ++ rest) ++ x).
    rewrite E, <- !app_assoc. reflexivity.
Qed.

(** On ASCII text [lower] is the ASCII mapping, whatever stands around. *)
Lemma lower_from_ascii (before s rest : str) :
  forallb is_ascii s = true ->
  lower_from before (s ++ rest)
  = map ascii_lower s ++ lower_from (before ++ s) rest.
Proof.
  revert before. induction s as [|c t IH]; intros before; simpl.
  - now rewrite app_nil_r.
  - intros H. apply andb_prop in H as [Hc Ht].
    unfold lower_char. rewrite Hc. simpl.
    now rewrite (IH _ Ht), <- app_assoc.
Qed.

Lemma lower_ascii (s : str) :
  forallb is_ascii s = true -> lower s = map ascii_lower s.
Proof.
  intros H. unfold lower.
  rewrite <- (app_nil_r s) at 1. rewrite (lower_from_ascii _ _ _ H).
  simpl. apply app_nil_r.
Qed.

Lemma ascii_lower_is_ascii (c : N) :
  is_ascii (ascii_lower c) = true -> is_ascii c = true.
Proof.
  unfold is_ascii, ascii_lower, ascii_isupper.
  destruct (65 <=? c) eqn:H1, (c <=? 90) eqn:H2; simpl; intros H; try exact H.
  apply N.leb_le in H2. apply N.ltb_lt. lia.
Qed.

Lemma ascii_lower_folds (c : N) :
  is_ascii c = true -> ascii_lower (ascii_lower c) = ascii_lower c.
Proof.
  intros _. unfold ascii_lower at 2 3. destruct (ascii_isupper c) eqn:E.
  - unfold ascii_isupper in E. apply andb_prop in E as [H1 H2].
    apply N.leb_le in H1, H2.
    unfold ascii_lower, ascii_isupper.
    replace (c + 32 <=? 90) with false by (symmetry; apply N.leb_gt; lia).
    now rewrite andb_false_r.
  - unfold ascii_lower. now rewrite E.
Qed.

Lemma isspace_ascii_lower (c : N) : isspace (ascii_lower c) = isspace c.
Proof.
  unfold ascii_lower, ascii_isupper.
  destruct (65 <=? c) eqn:H1, (c <=? 90) eqn:H2; simpl; try reflexivity.
  apply N.leb_le in H1, H2.
  assert (F : forall x, 33 <= x -> x <= 122 -> isspace x = false).
  { intros x Hlo Hhi. unfold isspace.
    replace (x <=? 13) with false by (symmetry; apply N.leb_gt; lia).
    replace (x <=? 32) with false by (symmetry; apply N.leb_gt; lia).
    replace (x =? 133) with false by (symmetry; apply N.eqb_neq; lia).
    replace (x =? 160) with false by (symmetry; apply N.eqb_neq; lia).
    replace (x =? 5760) with false by (symmetry; apply N.eqb_neq; lia).
    replace (8192 <=? x) with false by (symmetry; apply N.leb_gt; lia).
    replace (x =? 8232) with false by (symmetry; apply N.eqb_neq; lia).
    replace (x =? 8233) with false by (symmetry; apply N.eqb_neq; lia).
    replace (x =? 8239) with false by (symmetry; apply N.eqb_neq; lia).
    replace (x =? 8287) with false by (symmetry; apply N.eqb_neq; lia).
    replace (x =? 12288) with false by (symmetry; apply N.eqb_neq; lia).
    now rewrite !andb_false_r. }
  rewrite !F by lia. reflexivity.
Qed.

Lemma startswith_app (n y : str) : startswith (n ++ y) n = true.
Proof.
  induction n as [|c t IH]; simpl.
  - now destruct y.
  - now rewrite N.eqb_refl, IH.
Qed.

Lemma contains_nil_needle (h : str) : contains h [] = true.
Proof. destruct h; reflexivity. Qed.

(** [in] finds a string wherever it stands. *)
Lemma contains_app (x n y : str) : contains (x ++ n ++ y) n = true.
Proof.
  induction x as [|c t IH].
  - change ([] ++ n ++ y) with (n ++ y).
    generalize (startswith_app n y).
    destruct (n ++ y); simpl; intros H; now rewrite H.
  - simpl. rewrite IH. apply orb_true_r.
Qed.

Lemma contains_nil_hay (n : str) : n <> [] -> contains [] n = false.
Proof. destruct n; [contradiction | reflexivity]. Qed.

(** The lower-cased form of a string built around ASCII text has the
    lower-cased text in it. *)
Lemma lower_keeps_ascii (pre v post : str) :
  forallb is_ascii v = true ->
  contains (lower (pre ++ v ++ post)) (map ascii_lower v) = true.
Proof.
  intros Hv. unfold lower.
  destruct (lower_from_skip [] pre (v ++ post)) as [x E].
  rewrite E, (lower_from_ascii _ _ _ Hv).
  apply contains_app.
Qed.

(** Two strings with the same ASCII lower-casing, one of them ASCII. *)
Lemma same_fold_ascii (v l : str) :
  map ascii_lower v = map ascii_lower l ->
  forallb is_ascii l = true -> forallb is_ascii v = true.
Proof.
  revert l. induction v as [|c t IH]; intros [|d l'] E Hl; simpl in *;
    try reflexivity; try discriminate.
  injection E as Ec Et. apply andb_prop in Hl as [Hd Hl'].
  rewrite (IH _ Et Hl'), andb_true_r.
  apply ascii_lower_is_ascii. rewrite Ec.
  unfold is_ascii, ascii_lower, ascii_isupper in *.
  destruct (65 <=? d) eqn:H1, (d <=? 90) eqn:H2; simpl; try exact Hd.
  apply N.leb_le in H2. apply N.ltb_lt. lia.
Qed.

Lemma same_fold_starts_nonspace (v l : str) :
  map ascii_lower v = map ascii_lower l ->
  starts_nonspace v = starts_nonspace l.
Proof.
  destruct v as [|c t], l as [|d l']; simpl; intros E;
    try reflexivity; try discriminate.
  injection E as Ec _.
  now rewrite <- (isspace_ascii_lower c), Ec, isspace_ascii_lower.
Qed.

End LowerFacts.

(** * Facts about the two loops *)

Section LoopFacts.
Context {U : UnicodeData}.

Local Open Scope list_scope.

Lemma blank_test (cmd : str) :
  is_empty cmd || is_empty (Py.strip cmd) = is_empty (Py.strip cmd).
Proof. destruct cmd; reflexivity. Qed.

Lemma first_substring_some (subs : list string) (t : str) (s : string) :
  first_substring subs t = Some s ->
  In s subs /\ substring_matches t s = true.
Proof.
  induction subs as [|x rest IH]; simpl; [discriminate|].
  destruct (substring_matches t x) eqn:E.
  - intros [= <-]. auto.
  - intros H. destruct (IH H). auto.
Qed.

Lemma first_substring_none (subs : list string) (t : str) :
  first_substring subs t = None ->
  existsb (substring_matches t) subs = false.
Proof.
  induction subs as [|x rest IH]; simpl; [reflexivity|].
  destruct (substring_matches t x); [discriminate | exact IH].
Qed.

Lemma first_substring_none_intro (subs : list string) (t : str) :
  existsb (substring_matches t) subs = false ->
  first_substring subs t = None.
Proof.
  induction subs as [|x rest IH]; simpl; [reflexivity|].
  destruct (substring_matches t x); [discriminate | exact IH].
Qed.

(** The loop stops at the first literal that matches. *)
Lemma first_substring_first (before after : list string) (s : string) (t : str) :
  (forall x, In x before -> substring_matches t x = false) ->
  substring_matches t s = true ->
  first_substring (before ++ s :: after) t = Some s.
Proof.
  intros Hb Hs. induction before as [|x rest IH]; simpl.
  - now rewrite Hs.
  - rewrite (Hb x (or_introl eq_refl)). apply IH.
    intros y Hy. apply Hb. now right.
Qed.

Lemma first_substring_found (subs : list string) (t : str) (l : string) :
  In l subs -> substring_matches t l = true ->
  exists s, first_substring subs t = Some s.
Proof.
  intros Hin Hl. destruct (first_substring subs t) eqn:E; [eauto|].
  apply first_substring_none in E.
  assert (existsb (substring_matches t) subs = true) by (apply existsb_exists; eauto).
  congruence.
Qed.

Lemma search_returns (pattern : string) (t : str) :
  compiles (pattern, pattern) = true ->
  Re.search pattern t = Returns (pattern_matches t pattern).
Proof.
  unfold compiles, pattern_matches, Re.search. simpl.
  destruct (Re.compile pattern); [|discriminate].
  intros _. now destruct (Re.search_from r None t).
Qed.

(** With patterns that all compile, the second loop returns. *)
Lemma first_pattern_returns (pats : list (string * string)) (t : str) :
  forallb compiles pats = true ->
  exists r, first_pattern pats t = Returns r.
Proof.
  induction pats as [|[p reason] rest IH]; simpl; [eauto|].
  intros H. apply andb_prop in H as [Hp Hrest].
  rewrite (@search_returns p t Hp).
  destruct (pattern_matches t p); eauto.
Qed.

Lemma first_pattern_some (pats : list (string * string)) (t : str) (reason : string) :
  first_pattern pats t = Returns (Some reason) ->
  exists pattern, In (pattern, reason) pats /\ pattern_matches t pattern = true.
Proof.
  induction pats as [|[p r] rest IH]; simpl; [discriminate|].
  unfold pattern_matches at 1.
  destruct (Re.search p t) as [[|]|e] eqn:E.
  - intros [= <-]. exists p. split; [now left|].
    unfold pattern_matches. now rewrite E.
  - intros H. destruct (IH H) as (q & Hin & Hq). exists q. auto.
  - discriminate.
Qed.

Lemma first_pattern_none (pats : list (string * string)) (t : str) :
  first_pattern pats t = Returns None ->
  existsb (fun rule => pattern_matches t (fst rule)) pats = false.
Proof.
  induction pats as [|[p r] rest IH]; simpl; [reflexivity|].
  unfold pattern_matches at 1.
  destruct (Re.search p t) as [[|]|e]; try discriminate. exact IH.
Qed.

(** The loop stops at the first pattern that matches. *)
Lemma first_pattern_first (before after : list (string * string))
      (pattern reason : string) (t : str) :
  forallb compiles before = true ->
  (forall rule, In rule before -> pattern_matches t (fst rule) = false) ->
  pattern_matches t pattern = true ->
  first_pattern (before ++ (pattern, reason) :: after) t = Returns (Some reason).
Proof.
  intros Hc Hb Hp. induction before as [|[p r] rest IH]; simpl.
  - unfold pattern_matches in Hp.
    destruct (Re.search pattern t) as [[|]|e]; try discriminate. reflexivity.
  - simpl in Hc. apply andb_prop in Hc as [Hc1 Hc2].
    rewrite (@search_returns p t Hc1).
    assert (Hpr := Hb (p, r) (or_introl eq_refl)). simpl in Hpr.
    rewrite Hpr. apply IH; [exact Hc2|].
    intros y Hy. apply Hb. now right.
Qed.

(** [check] in terms of the two loops, for a command that is not blank. *)
Lemma check_not_blank (cls : RuleTables) (cmd : str) :
  Py.strip cmd <> [] ->
  check cls cmd =
    match first_substring (DANGEROUS_SUBSTRINGS cls) (cmd_lower_of cmd) with
    | Some substr =>
        Returns (false, "Blocked: potentially destructive (" ++ substr ++ ")")%string
    | None =>
        match first_pattern (DANGEROUS_PATTERNS cls) (cmd_norm_of cmd) with
        | Raises e => Raises e
        | Returns (Some reason) => Returns (false, "Blocked: " ++ reason)%string
        | Returns None => Returns (true, ""%string)
        end
    end.
Proof.
  intros H. unfold check. rewrite blank_test.
  destruct (Py.strip cmd); [contradiction | reflexivity].
Qed.

Lemma check_blank_eq (cls : RuleTables) (cmd : str) :
  Py.strip cmd = [] -> check cls cmd = Returns (true, ""%string).
Proof.
  intros H. unfold check. now rewrite blank_test, H.
Qed.

(** Every pattern of the table compiles. *)
Lemma patterns_compile :
  forallb compiles (DANGEROUS_PATTERNS CommandSafety) = true.
Proof. vm_compute. reflexivity. Qed.

(** A blank command has empty lower-cased and normalized forms, and no
    rule of the table holds of those. *)
Lemma blank_forms (cmd : str) :
  Py.strip cmd = [] -> cmd_lower_of cmd = [] /\ cmd_norm_of cmd = [].
Proof.
  intros H. unfold cmd_lower_of, cmd_norm_of. rewrite H. split; [reflexivity|].
  unfold Py.split.
  now rewrite (split_from_all_space _ (strip_nil_inv _ H)).
Qed.

Lemma no_rule_matches_blank (cmd : str) :
  Py.strip cmd = [] ->
  some_substring_matches CommandSafety cmd = false /\
  some_pattern_matches CommandSafety cmd = false.
Proof.
  intros H. destruct (blank_forms _ H) as [Hl Hn].
  unfold some_substring_matches, some_pattern_matches.
  rewrite Hl, Hn. split; vm_compute; reflexivity.
Qed.

End LoopFacts.

(** * Case and position in the two passes *)

Section CaseFacts.
Context {U : UnicodeData}.

Import Py.
Local Open Scope N_scope.
Local Open Scope list_scope.

Lemma is_ascii_lower (c : N) : is_ascii (ascii_lower c) = is_ascii c.
Proof.
  unfold is_ascii, ascii_lower, ascii_isupper.
  destruct (65 <=? c) eqn:H1, (c <=? 90) eqn:H2; simpl; try reflexivity.
  apply N.leb_le in H2.
  assert (c < 128) by lia. assert (c + 32 < 128) by lia.
  rewrite <- N.ltb_lt in *. congruence.
Qed.

Lemma ascii_lower_idem (c : N) : ascii_lower (ascii_lower c) = ascii_lower c.
Proof.
  destruct (is_ascii c) eqn:E; [now apply ascii_lower_folds|].
  unfold ascii_lower at 2 3, ascii_isupper.
  destruct (65 <=? c) eqn:H1, (c <=? 90) eqn:H2; simpl;
    try (unfold ascii_lower, ascii_isupper; now rewrite H1, H2).
  apply N.leb_le in H2. unfold is_ascii in E. apply N.ltb_ge in E. lia.
Qed.

Lemma ascii_lower_outside (c : N) : is_ascii c = false -> ascii_lower c = c.
Proof.
  unfold is_ascii, ascii_lower, ascii_isupper. intros E. apply N.ltb_ge in E.
  replace (c <=? 90) with false by (symmetry; apply N.leb_gt; lia).
  now rewrite andb_false_r.
Qed.

Lemma ieq_fold (p x : N) : Re.ieq p (ascii_lower x) = Re.ieq p x.
Proof.
  unfold Re.ieq. now rewrite is_ascii_lower, ascii_lower_idem.
Qed.

Lemma range_matches_fold (lo : N) (n : nat) (x : N) :
  Re.range_matches lo n (ascii_lower x) = Re.range_matches lo n x.
Proof.
  revert lo. induction n as [|n IH]; intros lo; simpl; [reflexivity|].
  now rewrite ieq_fold, IH.
Qed.

Lemma upper_bounds (c : N) : ascii_isupper c = true -> 65 <= c /\ c <= 90.
Proof.
  unfold ascii_isupper. intros H. apply andb_prop in H as [H1 H2].
  apply N.leb_le in H1, H2. auto.
Qed.

Lemma newline_fold (x : N) : (ascii_lower x =? 10) = (x =? 10).
Proof.
  unfold ascii_lower. destruct (ascii_isupper x) eqn:E; [|reflexivity].
  apply upper_bounds in E.
  transitivity false; [|symmetry]; apply N.eqb_neq; lia.
Qed.

Lemma atom_matches_fold (a : Re.atom) (x : N) :
  Re.atom_matches a (ascii_lower x) = Re.atom_matches a x.
Proof.
  destruct a as [p| | |items]; simpl.
  - apply ieq_fold.
  - now rewrite newline_fold.
  - apply isspace_ascii_lower.
  - induction items as [|it rest IH]; simpl; [reflexivity|].
    rewrite IH. f_equal. destruct it; simpl.
    + apply ieq_fold.
    + apply range_matches_fold.
Qed.

Lemma word_char_fold (x : N) : Re.word_char (ascii_lower x) = Re.word_char x.
Proof.
  unfold Re.word_char. rewrite is_ascii_lower.
  destruct (is_ascii x) eqn:E; [|now rewrite (ascii_lower_outside _ E)].
  unfold ascii_lower. destruct (ascii_isupper x) eqn:Eu; [|reflexivity].
  destruct (upper_bounds _ Eu) as [H1 H2].
  unfold Re.ascii_isalnum. rewrite Eu. simpl.
  unfold ascii_isupper, ascii_islower.
  replace (x + 32 <=? 90) with false by (symmetry; apply N.leb_gt; lia).
  replace (97 <=? x + 32) with true by (symmetry; apply N.leb_le; lia).
  replace (x + 32 <=? 122) with true by (symmetry; apply N.leb_le; lia).
  now rewrite andb_false_r.
Qed.

Lemma at_boundary_fold (prev : option N) (text : str) :
  Re.at_boundary (option_map ascii_lower prev) (map ascii_lower text)
  = Re.at_boundary prev text.
Proof.
  unfold Re.at_boundary.
  destruct prev, text; simpl; now rewrite ?word_char_fold.
Qed.

Lemma one_then_fold (k k' : option N -> str -> bool) (a : Re.atom) (text : str) :
  (forall p t, k' (option_map ascii_lower p) (map ascii_lower t) = k p t) ->
  Re.one_then k' a (map ascii_lower text) = Re.one_then k a text.
Proof.
  intros Hk. destruct text as [|c t]; simpl; [reflexivity|].
  now rewrite atom_matches_fold, <- (Hk (Some c) t).
Qed.

Lemma repeat_then_fold (k k' : option N -> str -> bool) (a : Re.atom)
      (prev : option N) (text : str) :
  (forall p t, k' (option_map ascii_lower p) (map ascii_lower t) = k p t) ->
  Re.repeat_then k' a (option_map ascii_lower prev) (map ascii_lower text)
  = Re.repeat_then k a prev text.
Proof.
  intros Hk. revert prev. induction text as [|c t IH]; intros prev; simpl.
  - rewrite <- (Hk prev []). reflexivity.
  - rewrite <- (Hk prev (c :: t)), atom_matches_fold, <- (IH (Some c)).
    reflexivity.
Qed.

(** Whether a pattern matches does not depend on the case of the ASCII
    letters of the subject. *)
Lemma match_at_fold (re : Re.regex) (prev : option N) (text : str) :
  Re.match_at re (option_map ascii_lower prev) (map ascii_lower text)
  = Re.match_at re prev text.
Proof.
  revert prev text. induction re as [|nd re' IH]; intros prev text; [reflexivity|].
  destruct nd as [|a q]; simpl.
  - now rewrite at_boundary_fold, IH.
  - destruct q.
    + apply one_then_fold. exact IH.
    + apply repeat_then_fold. exact IH.
    + apply one_then_fold. intros p t. apply repeat_then_fold. exact IH.
    + rewrite IH. f_equal. apply one_then_fold. exact IH.
Qed.

Lemma search_from_fold (re : Re.regex) (prev : option N) (text : str) :
  Re.search_from re (option_map ascii_lower prev) (map ascii_lower text)
  = Re.search_from re prev text.
Proof.
  revert prev. induction text as [|c t IH]; intros prev; simpl.
  - rewrite <- (match_at_fold re prev []). reflexivity.
  - rewrite <- (match_at_fold re prev (c :: t)), <- (IH (Some c)). reflexivity.
Qed.

Lemma search_fold (pattern : string) (text : str) :
  Re.search pattern (map ascii_lower text) = Re.search pattern text.
Proof.
  unfold Re.search. destruct (Re.compile pattern); [|reflexivity].
  now rewrite <- (search_from_fold r None text).
Qed.

(** A match found after any prefix of the subject is a match of the
    search: patterns are not anchored. *)
Lemma search_from_unanchored (re : Re.regex) (prefix text : str) (prev : option N) :
  Re.match_at re (fold_left (fun _ c => Some c) prefix prev) text = true ->
  Re.search_from re prev (prefix ++ text) = true.
Proof.
  revert prev. induction prefix as [|c t IH]; intros prev H; simpl in *.
  - destruct text; simpl; now rewrite H.
  - rewrite (IH _ H). apply orb_true_r.
Qed.

Lemma lstrip_fold (s : str) : lstrip (map ascii_lower s) = map ascii_lower (lstrip s).
Proof.
  induction s as [|c t IH]; simpl; [reflexivity|].
  rewrite isspace_ascii_lower. now destruct (isspace c).
Qed.

Lemma strip_fold (s : str) : strip (map ascii_lower s) = map ascii_lower (strip s).
Proof.
  unfold strip, rstrip.
  now rewrite lstrip_fold, <- map_rev, lstrip_fold, map_rev.
Qed.

Lemma split_from_fold (word s : str) :
  split_from (map ascii_lower word) (map ascii_lower s)
  = map (map ascii_lower) (split_from word s).
Proof.
  revert word. induction s as [|c t IH]; intros word; simpl.
  - now destruct word.
  - rewrite isspace_ascii_lower. destruct (isspace c).
    + destruct word; simpl; now rewrite <- (IH []).
    + rewrite <- IH, map_app. reflexivity.
Qed.

Lemma join_fold (sep : str) (words : list str) :
  join (map ascii_lower sep) (map (map ascii_lower) words)
  = map ascii_lower (join sep words).
Proof.
  induction words as [|w rest IH]; [reflexivity|].
  destruct rest as [|w' rest']; [reflexivity|].
  change (join sep (w :: w' :: rest')) with (w ++ sep ++ join sep (w' :: rest')).
  rewrite !map_app, <- IH. reflexivity.
Qed.

Lemma forallb_lstrip (f : N -> bool) (s : str) :
  forallb f s = true -> forallb f (lstrip s) = true.
Proof.
  induction s as [|c t IH]; simpl; [reflexivity|].
  intros H. destruct (isspace c).
  - apply andb_prop in H as [_ H]. now apply IH.
  - exact H.
Qed.

Lemma forallb_strip (f : N -> bool) (s : str) :
  forallb f s = true -> forallb f (strip s) = true.
Proof.
  intros H. unfold strip, rstrip.
  rewrite forallb_rev_eq. apply forallb_lstrip.
  rewrite forallb_rev_eq. now apply forallb_lstrip.
Qed.

Lemma forallb_ascii_fold (s : str) :
  forallb is_ascii (map ascii_lower s) = forallb is_ascii s.
Proof.
  induction s as [|c t IH]; simpl; [reflexivity|].
  now rewrite is_ascii_lower, IH.
Qed.

Lemma nonspace_fold (s : str) :
  forallb (fun c => negb (isspace c)) (map ascii_lower s)
  = forallb (fun c => negb (isspace c)) s.
Proof.
  induction s as [|c t IH]; simpl; [reflexivity|].
  now rewrite isspace_ascii_lower, IH.
Qed.

Lemma pattern_matches_fold (pattern : string) (text : str) :
  pattern_matches (map ascii_lower text) pattern = pattern_matches text pattern.
Proof. unfold pattern_matches. now rewrite search_fold. Qed.

Lemma map_ascii_lower_idem (s : str) :
  map ascii_lower (map ascii_lower s) = map ascii_lower s.
Proof.
  rewrite map_map. apply map_ext. exact ascii_lower_idem.
Qed.

Lemma cmd_lower_fold (cmd : str) :
  forallb is_ascii cmd = true ->
  cmd_lower_of (map ascii_lower cmd) = cmd_lower_of cmd.
Proof.
  intros H. unfold cmd_lower_of. rewrite strip_fold.
  assert (Hs := forallb_strip _ _ H).
  rewrite (lower_ascii (strip cmd) Hs).
  rewrite lower_ascii by now rewrite forallb_ascii_fold.
  apply map_ascii_lower_idem.
Qed.

Lemma cmd_norm_fold (cmd : str) :
  cmd_norm_of (map ascii_lower cmd) = map ascii_lower (cmd_norm_of cmd).
Proof.
  unfold cmd_norm_of, split.
  rewrite <- join_fold, <- split_from_fold. reflexivity.
Qed.

Lemma first_pattern_fold (pats : list (string * string)) (t : str) :
  first_pattern pats (map ascii_lower t) = first_pattern pats t.
Proof.
  induction pats as [|[p r] rest IH]; simpl; [reflexivity|].
  now rewrite search_fold, IH.
Qed.

(** The verdict on an ASCII command is the verdict on its lower-case
    form. *)
Lemma check_fold (cls : RuleTables) (cmd : str) :
  forallb is_ascii cmd = true ->
  check cls (map ascii_lower cmd) = check cls cmd.
Proof.
  intros H. unfold check.
  rewrite !blank_test, strip_fold, (cmd_lower_fold _ H), cmd_norm_fold,
    first_pattern_fold.
  now destruct (strip cmd).
Qed.

End CaseFacts.

(** * The claims *)

Section Claims.
Context {U : UnicodeData}.

Local Open Scope list_scope.

Lemma blocked_not_empty (text : string) : ("Blocked: " ++ text)%string <> ""%string.
Proof. discriminate. Qed.

(** For any tables whose patterns compile, [check] returns a verdict. *)
Lemma check_returns (cls : RuleTables) (cmd : str) :
  forallb compiles (DANGEROUS_PATTERNS cls) = true ->
  exists verdict, check cls cmd = Returns verdict.
Proof.
  intros Hc. destruct (Py.strip cmd) eqn:Hs.
  - rewrite (check_blank_eq _ _ Hs). eauto.
  - rewrite check_not_blank by (rewrite Hs; discriminate).
    destruct (first_substring _ _); [eauto|].
    destruct (first_pattern_returns _ (cmd_norm_of cmd) Hc) as [[r|] Er];
      rewrite Er; eauto.
Qed.

(** A table with a pattern that does not compile makes [check] raise, as
    soon as the second loop reaches the pattern. *)
Example check_raises_on_bad_pattern :
  check {| DANGEROUS_PATTERNS := [("(", "unbalanced")];
           DANGEROUS_SUBSTRINGS := [] |} (str_of "ls")
  = Raises re_error.
Proof. reflexivity. Qed.


(** C3. [check] is total: for every sequence of code points it returns a
    verdict and does not raise (every pattern of the table compiles, and
    nothing else in it can fail); when no rule of the table holds of the
    command the verdict is safe, with the empty reason. *)
Theorem check_total (cmd : str) :
  (exists verdict, check CommandSafety cmd = Returns verdict) /\
  (some_substring_matches CommandSafety cmd = false ->
   some_pattern_matches CommandSafety cmd = false ->
   check CommandSafety cmd = Returns (true, ""%string)).
Proof.
  split; [exact (check_returns CommandSafety cmd patterns_compile)|].
  intros Hsub Hpat. destruct (Py.strip cmd) eqn:Hs.
  - exact (check_blank_eq _ _ Hs).
  - rewrite check_not_blank by (rewrite Hs; discriminate).
    rewrite (first_substring_none_intro _ _ Hsub).
    destruct (first_pattern_returns _ (cmd_norm_of cmd) patterns_compile)
      as [[category|] Er]; rewrite Er; [|reflexivity].
    destruct (first_pattern_some _ _ _ Er) as (pattern & Hin & Hp).
    assert (some_pattern_matches CommandSafety cmd = true).
    { apply existsb_exists. exists (pattern, category). auto. }
    congruence.
Qed.

(** C4. For the empty string and for every string of whitespace only,
    [check] returns safe with the empty reason, whatever the tables hold:
    no rule is evaluated, not even a pattern that would raise or a literal
    that every string contains. *)
Theorem check_blank (cls : RuleTables) (cmd : str) :
  forallb Py.isspace cmd = true ->
  check cls cmd = Returns (true, ""%string).
Proof.
  intros H. apply check_blank_eq. now apply strip_all_space.
Qed.

(** No literal and no pattern of the table holds of a blank command. *)
Lemma blank_matches_nothing (cmd : str) :
  Py.strip cmd = [] ->
  (forall substr, In substr (DANGEROUS_SUBSTRINGS CommandSafety) ->
     substring_matches (cmd_lower_of cmd) substr = false) /\
  (forall rule, In rule (DANGEROUS_PATTERNS CommandSafety) ->
     pattern_matches (cmd_norm_of cmd) (fst rule) = false).
Proof.
  intros Hs. destruct (no_rule_matches_blank _ Hs) as [A B].
  unfold some_substring_matches, some_pattern_matches in *. split.
  - intros substr Hin.
    destruct (substring_matches (cmd_lower_of cmd) substr) eqn:E; [|reflexivity].
    assert (existsb (substring_matches (cmd_lower_of cmd))
                    (DANGEROUS_SUBSTRINGS CommandSafety) = true)
      by (apply existsb_exists; eauto).
    congruence.
  - intros rule Hin.
    destruct (pattern_matches (cmd_norm_of cmd) (fst rule)) eqn:E; [|reflexivity].
    assert (existsb (fun r => pattern_matches (cmd_norm_of cmd) (fst r))
                    (DANGEROUS_PATTERNS CommandSafety) = true)
      by (apply existsb_exists; eauto).
    congruence.
Qed.

Lemma forallb_compiles_prefix (before after : list (string * string)) :
  forallb compiles (before ++ after) = true -> forallb compiles before = true.
Proof.
  rewrite forallb_app. intros H. now apply andb_prop in H as [H _].
Qed.

(** C2. The literals are tried in the order of the table, before any
    pattern: the first literal found in the lower-cased command decides the
    verdict, with the reason ["Blocked: potentially destructive (<literal>)"].
    Only when no literal is found are the patterns tried, in the order of the
    table, the first one found in the normalized command giving
    ["Blocked: <its reason>"]. The command [rm -rf / ; del /s /q C:\\] holds
    a literal and matches a pattern, and gets the literal's reason. *)
Theorem check_substrings_before_patterns :
  (forall cmd before substr after,
      DANGEROUS_SUBSTRINGS CommandSafety = before ++ substr :: after ->
      (forall s, In s before -> substring_matches (cmd_lower_of cmd) s = false) ->
      substring_matches (cmd_lower_of cmd) substr = true ->
      check CommandSafety cmd
      = Returns (false, ("Blocked: potentially destructive (" ++ substr ++ ")")%string))
  /\
  (forall cmd before pattern reason after,
      DANGEROUS_PATTERNS CommandSafety = before ++ (pattern, reason) :: after ->
      some_substring_matches CommandSafety cmd = false ->
      (forall rule, In rule before ->
         pattern_matches (cmd_norm_of cmd) (fst rule) = false) ->
      pattern_matches (cmd_norm_of cmd) pattern = true ->
      check CommandSafety cmd = Returns (false, ("Blocked: " ++ reason)%string))
  /\
  (substring_matches (cmd_lower_of (str_of "rm -rf / ; del /s /q C:\\")) "rm -rf /" = true /\
   pattern_matches (cmd_norm_of (str_of "rm -rf / ; del /s /q C:\\")) "del\s+/[sq]\s+" = true /\
   check CommandSafety (str_of "rm -rf / ; del /s /q C:\\")
   = Returns (false, "Blocked: potentially destructive (rm -rf /)"%string)).
Proof.
  split; [|split].
  - intros cmd before substr after Htab Hbefore Hsub.
    assert (Hin : In substr (DANGEROUS_SUBSTRINGS CommandSafety))
      by (rewrite Htab; apply in_elt).
    destruct (Py.strip cmd) eqn:Hs.
    + destruct (blank_matches_nothing _ Hs) as [A _].
      rewrite (A _ Hin) in Hsub. discriminate.
    + rewrite check_not_blank by (rewrite Hs; discriminate).
      now rewrite Htab, (first_substring_first _ _ _ _ Hbefore Hsub).
  - intros cmd before pattern reason after Htab Hnone Hbefore Hpat.
    assert (Hin : In (pattern, reason) (DANGEROUS_PATTERNS CommandSafety))
      by (rewrite Htab; apply in_elt).
    destruct (Py.strip cmd) eqn:Hs.
    + destruct (blank_matches_nothing _ Hs) as [_ B].
      specialize (B _ Hin). simpl in B. congruence.
    + rewrite check_not_blank by (rewrite Hs; discriminate).
      rewrite (first_substring_none_intro _ _ Hnone).
      assert (Hc : forallb compiles before = true).
      { apply forallb_compiles_prefix with (after := (pattern, reason) :: after).
        rewrite <- Htab. exact patterns_compile. }
      now rewrite Htab, (first_pattern_first _ _ _ _ _ Hc Hbefore Hpat).
  - repeat split; vm_compute; reflexivity.
Qed.

(** ** Commands chained with whitespace *)

Lemma split_from_app_space (word a ws b : str) :
  ws <> [] -> forallb Py.isspace ws = true ->
  Py.split_from word (a ++ ws ++ b) = Py.split_from word a ++ Py.split_from [] b.
Proof.
  intros Hne Hsp. revert word. induction a as [|c a' IH]; intros word; simpl.
  - destruct ws as [|w ws']; [contradiction|]. simpl in *.
    apply andb_prop in Hsp as [Hw Hws]. rewrite Hw.
    rewrite (split_from_skip_space _ _ Hws). now destruct word.
  - destruct (Py.isspace c).
    + destruct word; simpl; now rewrite IH.
    + apply IH.
Qed.

Lemma split_app_space (a ws b : str) :
  ws <> [] -> forallb Py.isspace ws = true ->
  Py.split (a ++ ws ++ b) = Py.split a ++ Py.split b.
Proof. intros. now apply split_from_app_space. Qed.

Lemma join_app (sep : str) (l1 l2 : list str) :
  l1 <> [] -> l2 <> [] ->
  Py.join sep (l1 ++ l2) = Py.join sep l1 ++ sep ++ Py.join sep l2.
Proof.
  intros H1 H2. induction l1 as [|w rest IH]; [contradiction|].
  destruct rest as [|w' rest'].
  - destruct l2; [contradiction | reflexivity].
  - change (Py.join sep ((w :: w' :: rest') ++ l2))
      with (w ++ sep ++ Py.join sep ((w' :: rest') ++ l2)).
    rewrite IH by discriminate.
    change (Py.join sep (w :: w' :: rest'))
      with (w ++ sep ++ Py.join sep (w' :: rest')).
    now rewrite <- !app_assoc.
Qed.

(** The normalized form of a command standing between two others, with
    whitespace between them, is its own normalized form with a space on
    each side where something stands beside it. *)
Lemma cmd_norm_between (cmd1 ws cmd2 ws' cmd3 : str) :
  ws <> [] -> forallb Py.isspace ws = true ->
  ws' <> [] -> forallb Py.isspace ws' = true ->
  Py.split cmd2 <> [] ->
  exists before after,
    cmd_norm_of (cmd1 ++ ws ++ cmd2 ++ ws' ++ cmd3)
    = before ++ cmd_norm_of cmd2 ++ after /\
    (before = [] \/ exists x, before = x ++ [32%N]) /\
    (after = [] \/ exists y, after = 32%N :: y).
Proof.
  intros Hws Hsp Hws' Hsp' H2. unfold cmd_norm_of.
  rewrite (split_app_space cmd1 ws _ Hws Hsp), (split_app_space cmd2 ws' _ Hws' Hsp').
  set (sp := str_of " ").
  assert (Hsp1 : forall l, l <> [] ->
            exists y, sp ++ Py.join sp l = 32%N :: y)
    by (intros l _; eexists; reflexivity).
  destruct (Py.split cmd1) as [|a1 l1] eqn:E1, (Py.split cmd3) as [|a3 l3] eqn:E3.
  - exists [], []. rewrite !app_nil_r. auto.
  - exists [], (sp ++ Py.join sp (a3 :: l3)).
    change ([] ++ Py.split cmd2 ++ a3 :: l3) with (Py.split cmd2 ++ a3 :: l3).
    rewrite (join_app sp (Py.split cmd2) (a3 :: l3) H2) by discriminate.
    split; [reflexivity|]. split; [auto|]. right. eexists. reflexivity.
  - exists (Py.join sp (a1 :: l1) ++ sp), [].
    rewrite !app_nil_r.
    rewrite (join_app sp (a1 :: l1) (Py.split cmd2)) by (assumption || discriminate).
    rewrite <- app_assoc. split; [reflexivity|]. split; [|auto].
    right. eexists. reflexivity.
  - exists (Py.join sp (a1 :: l1) ++ sp), (sp ++ Py.join sp (a3 :: l3)).
    rewrite (join_app sp (a1 :: l1) (Py.split cmd2 ++ a3 :: l3)).
    + rewrite (join_app sp (Py.split cmd2) (a3 :: l3) H2) by discriminate.
      rewrite <- !app_assoc. split; [reflexivity|].
      split; right; eexists; reflexivity.
    + discriminate.
    + destruct (Py.split cmd2); [contradiction | discriminate].
Qed.

Section SearchPosition.

Import Py.
Local Open Scope N_scope.

Lemma at_boundary_after_space (text : str) :
  Re.at_boundary (Some 32) text = Re.at_boundary None text.
Proof. reflexivity. Qed.

Lemma repeat_then_ext (k k' : option N -> str -> bool) (a : Re.atom)
      (prev : option N) (text : str) :
  (forall p t, k p t = k' p t) ->
  Re.repeat_then k a prev text = Re.repeat_then k' a prev text.
Proof.
  intros Hk. revert prev. induction text as [|c t IH]; intros prev; simpl.
  - now rewrite Hk.
  - now rewrite Hk, IH.
Qed.

(** At the start of the subject, and after a space, a pattern matches
    alike. *)
Lemma match_at_after_space (re : Re.regex) (text : str) :
  Re.match_at re (Some 32) text = Re.match_at re None text.
Proof.
  induction re as [|nd re' IH]; [reflexivity|].
  destruct nd as [|a q]; simpl.
  - now rewrite IH.
  - destruct q; try reflexivity.
    + destruct text as [|c t]; simpl; now rewrite IH.
    + now rewrite IH.
Qed.

Lemma search_from_after_space (re : Re.regex) (text : str) :
  Re.search_from re (Some 32) text = Re.search_from re None text.
Proof. destruct text; simpl; now rewrite match_at_after_space. Qed.

Lemma search_from_suffix (re : Re.regex) (prefix text : str) (prev : option N) :
  Re.search_from re (fold_left (fun _ c => Some c) prefix prev) text = true ->
  Re.search_from re prev (prefix ++ text) = true.
Proof.
  revert prev. induction prefix as [|c t IH]; intros prev H; simpl in *.
  - exact H.
  - rewrite (IH _ H). apply orb_true_r.
Qed.

Lemma at_boundary_before_space (prev : option N) (text more : str) :
  Re.at_boundary prev (text ++ 32 :: more) = Re.at_boundary prev text.
Proof. destruct text; reflexivity. Qed.

Lemma one_then_extend (k k' : option N -> str -> bool) (a : Re.atom)
      (text more : str) :
  (forall p t, k p t = true -> k' p (t ++ 32 :: more) = true) ->
  Re.one_then k a text = true ->
  Re.one_then k' a (text ++ 32 :: more) = true.
Proof.
  intros Hk. destruct text as [|c t]; simpl; [discriminate|].
  intros H. apply andb_prop in H as [Ha Hkt].
  now rewrite Ha, (Hk _ _ Hkt).
Qed.

Lemma repeat_then_extend (k k' : option N -> str -> bool) (a : Re.atom)
      (prev : option N) (text more : str) :
  (forall p t, k p t = true -> k' p (t ++ 32 :: more) = true) ->
  Re.repeat_then k a prev text = true ->
  Re.repeat_then k' a prev (text ++ 32 :: more) = true.
Proof.
  intros Hk. revert prev. induction text as [|c t IH]; intros prev; simpl.
  - rewrite orb_false_r. intros H.
    assert (X := Hk _ _ H). simpl in X. now rewrite X.
  - intros H. apply orb_prop in H as [H|H].
    + assert (X := Hk _ _ H). simpl in X. now rewrite X.
    + apply andb_prop in H as [Ha Hr].
      rewrite Ha, (IH _ Hr). apply orb_true_r.
Qed.

(** A match stays a match when a space and more text follow the subject. *)
Lemma match_at_extend (re : Re.regex) (prev : option N) (text more : str) :
  Re.match_at re prev text = true ->
  Re.match_at re prev (text ++ 32 :: more) = true.
Proof.
  revert prev text. induction re as [|nd re' IH]; intros prev text; [reflexivity|].
  destruct nd as [|a q]; simpl.
  - rewrite at_boundary_before_space. intros H.
    apply andb_prop in H as [Hb Hm]. now rewrite Hb, (IH _ _ Hm).
  - destruct q.
    + apply one_then_extend. exact IH.
    + apply repeat_then_extend. exact IH.
    + apply one_then_extend. intros p t. apply repeat_then_extend. exact IH.
    + intros H. apply orb_prop in H as [H|H].
      * now rewrite (one_then_extend _ _ a text more IH H).
      * rewrite (IH _ _ H). apply orb_true_r.
Qed.

Lemma search_from_extend (re : Re.regex) (prev : option N) (text more : str) :
  Re.search_from re prev text = true ->
  Re.search_from re prev (text ++ 32 :: more) = true.
Proof.
  revert prev. induction text as [|c t IH]; intros prev; simpl.
  - rewrite orb_false_r. intros H.
    assert (X := match_at_extend re prev [] more H). simpl in X. now rewrite X.
  - intros H. apply orb_prop in H as [H|H].
    + assert (X := match_at_extend re prev (c :: t) more H). simpl in X.
      now rewrite X.
    + rewrite (IH _ H). apply orb_true_r.
Qed.

(** What the search finds in a text it finds in the text set between
    spaces. *)
Lemma search_from_between (re : Re.regex) (before text after : str) :
  (before = [] \/ exists x, before = x ++ [32]) ->
  (after = [] \/ exists y, after = 32 :: y) ->
  Re.search_from re None text = true ->
  Re.search_from re None (before ++ text ++ after) = true.
Proof.
  intros Hb Ha H.
  assert (H' : Re.search_from re None (text ++ after) = true).
  { destruct Ha as [->|[y ->]]; [now rewrite app_nil_r|].
    now apply search_from_extend. }
  destruct Hb as [->|[x ->]]; [exact H'|].
  apply search_from_suffix. rewrite fold_left_app. simpl.
  now rewrite search_from_after_space.
Qed.

End SearchPosition.

(** ** Literals embedded in a command *)

(** A literal that starts and ends with non-whitespace is found in every
    command that holds it, in any mix of upper and lower case. *)
Lemma embedded_literal_matches (l : string) (v pre post : str) :
  starts_nonspace (str_of l) = true ->
  starts_nonspace (rev (str_of l)) = true ->
  forallb Py.is_ascii (str_of l) = true ->
  map Py.ascii_lower v = map Py.ascii_lower (str_of l) ->
  Py.strip (pre ++ v ++ post) <> [] /\
  substring_matches (cmd_lower_of (pre ++ v ++ post)) l = true.
Proof.
  intros Hl Hr Ha Hv.
  assert (Hva := same_fold_ascii _ _ Hv Ha).
  assert (Hvs : starts_nonspace v = true)
    by now rewrite (same_fold_starts_nonspace _ _ Hv).
  assert (Hvr : starts_nonspace (rev v) = true).
  { rewrite (same_fold_starts_nonspace (rev v) (rev (str_of l))); [exact Hr|].
    now rewrite !map_rev, Hv. }
  destruct (strip_keeps pre v post Hvs Hvr) as (pre' & post' & E).
  split.
  - rewrite E. destruct v; [discriminate|]. now destruct pre'.
  - unfold substring_matches, cmd_lower_of.
    rewrite E, (lower_ascii _ Ha), <- Hv. now apply lower_keeps_ascii.
Qed.

Lemma embedded_literal_blocked (cls : RuleTables) (l : string) (v pre post : str) :
  In l (DANGEROUS_SUBSTRINGS cls) ->
  starts_nonspace (str_of l) = true ->
  starts_nonspace (rev (str_of l)) = true ->
  forallb Py.is_ascii (str_of l) = true ->
  map Py.ascii_lower v = map Py.ascii_lower (str_of l) ->
  exists s,
    In s (DANGEROUS_SUBSTRINGS cls) /\
    check cls (pre ++ v ++ post)
    = Returns (false, ("Blocked: potentially destructive (" ++ s ++ ")")%string).
Proof.
  intros Hin Hl Hr Ha Hv.
  destruct (embedded_literal_matches l v pre post Hl Hr Ha Hv) as [Hne Hm].
  destruct (first_substring_found _ _ _ Hin Hm) as [s Es].
  exists s. split; [exact (proj1 (first_substring_some _ _ _ Es))|].
  now rewrite (check_not_blank _ _ Hne), Es.
Qed.

(** Every literal of the table, in any mix of case, wherever it stands. *)
Lemma literal_variant_blocked (l : string) (v pre post : str) :
  In l (DANGEROUS_SUBSTRINGS CommandSafety) ->
  map Py.ascii_lower v = map Py.ascii_lower (str_of l) ->
  exists s,
    In s (DANGEROUS_SUBSTRINGS CommandSafety) /\
    check CommandSafety (pre ++ v ++ post)
    = Returns (false, ("Blocked: potentially destructive (" ++ s ++ ")")%string).
Proof.
  intros Hin Hv. simpl in Hin.
  repeat (destruct Hin as [<-|Hin]); try contradiction;
    try (match type of Hv with
         | _ = map _ (str_of ?lit) =>
             apply (embedded_literal_blocked CommandSafety lit v pre post)
         end;
         [simpl; tauto | reflexivity | reflexivity | reflexivity | exact Hv]).
  (* "rm -rf / " ends with a space: the literal before the space is found *)
  change (str_of "rm -rf / ") with (str_of "rm -rf /" ++ [32%N]) in Hv.
  rewrite map_app in Hv.
  apply map_eq_app in Hv as (v1 & v2 & -> & Hv1 & _).
  rewrite <- !app_assoc.
  apply (embedded_literal_blocked CommandSafety "rm -rf /" v1 pre (v2 ++ post));
    [simpl; tauto | reflexivity | reflexivity | reflexivity | exact Hv1].
Qed.

Lemma split_word_space (w ws rest : str) :
  w <> [] -> forallb (fun c => negb (Py.isspace c)) w = true ->
  ws <> [] -> forallb Py.isspace ws = true ->
  Py.split (w ++ ws ++ rest) = w :: Py.split rest.
Proof.
  intros Hw Hwn Hws Hsp. unfold Py.split.
  rewrite (split_from_word _ _ _ Hwn). simpl.
  destruct ws as [|c t]; [contradiction|].
  simpl in *. apply andb_prop in Hsp as [Hc Ht]. rewrite Hc.
  rewrite (split_from_skip_space _ _ Ht).
  destruct w; [contradiction | reflexivity].
Qed.

Lemma first_pattern_found (pats : list (string * string)) (t : str)
      (rule : string * string) :
  forallb compiles pats = true ->
  In rule pats -> pattern_matches t (fst rule) = true ->
  exists reason, first_pattern pats t = Returns (Some reason).
Proof.
  intros Hc Hin Hm.
  destruct (first_pattern_returns _ t Hc) as [[reason|] E]; [eauto|].
  apply first_pattern_none in E.
  assert (existsb (fun r => pattern_matches t (fst r)) pats = true)
    by (apply existsb_exists; eauto).
  congruence.
Qed.

(** A command one of whose patterns matches is blocked, by that pattern or
    by a rule tried before it. *)
Lemma pattern_match_blocked (cmd : str) (rule : string * string) :
  Py.strip cmd <> [] ->
  In rule (DANGEROUS_PATTERNS CommandSafety) ->
  pattern_matches (cmd_norm_of cmd) (fst rule) = true ->
  exists reason, check CommandSafety cmd = Returns (false, reason).
Proof.
  intros Hne Hin Hm. rewrite (check_not_blank _ _ Hne).
  destruct (first_substring _ _); [eauto|].
  destruct (first_pattern_found _ _ _ patterns_compile Hin Hm) as [reason E].
  rewrite E. eauto.
Qed.

Lemma split_from_nil_inv (word s : str) :
  Py.split_from word s = [] -> word = [] /\ forallb Py.isspace s = true.
Proof.
  revert word. induction s as [|c t IH]; intros word; simpl.
  - destruct word; [auto | discriminate].
  - destruct (Py.isspace c).
    + destruct word; [|discriminate]. intros H. destruct (IH _ H). auto.
    + intros H. destruct (IH _ H) as [E _]. now destruct word.
Qed.

Lemma split_not_blank (s : str) : Py.strip s <> [] -> Py.split s <> [].
Proof.
  intros Hne Hs. apply Hne. apply strip_all_space.
  exact (proj2 (split_from_nil_inv _ _ Hs)).
Qed.

(** A command that a pattern of the table matches is blocked wherever it
    stands in a longer command, set off by whitespace. *)
Lemma chained_pattern_blocked (cmd1 ws cmd2 ws' cmd3 : str) :
  ws <> [] -> forallb Py.isspace ws = true ->
  ws' <> [] -> forallb Py.isspace ws' = true ->
  some_pattern_matches CommandSafety cmd2 = true ->
  exists reason,
    check CommandSafety (cmd1 ++ ws ++ cmd2 ++ ws' ++ cmd3) = Returns (false, reason).
Proof.
  intros Hws Hsp Hws' Hsp' Hm.
  assert (H2 : Py.split cmd2 <> []).
  { intros E. destruct (Py.strip cmd2) eqn:Es.
    - destruct (no_rule_matches_blank _ Es). congruence.
    - apply (split_not_blank cmd2); [rewrite Es; discriminate | exact E]. }
  destruct (cmd_norm_between cmd1 ws cmd2 ws' cmd3 Hws Hsp Hws' Hsp' H2)
    as (before & after & Hnorm & Hb & Ha).
  apply existsb_exists in Hm as (rule & Hin & Hrule).
  apply pattern_match_blocked with (rule := rule); [|exact Hin|].
  - intros Es. apply strip_nil_inv in Es.
    assert (E := split_from_all_space _ Es).
    fold (Py.split (cmd1 ++ ws ++ cmd2 ++ ws' ++ cmd3)) in E.
    rewrite (split_app_space cmd1 ws _ Hws Hsp),
      (split_app_space cmd2 ws' _ Hws' Hsp') in E.
    apply app_eq_nil in E as [_ E]. apply app_eq_nil in E as [E _]. contradiction.
  - rewrite Hnorm. unfold pattern_matches, Re.search in *.
    destruct (Re.compile (fst rule)) as [re|]; [|discriminate].
    destruct (Re.search_from re None (cmd_norm_of cmd2)) eqn:Hs; [|discriminate].
    now rewrite (search_from_between re before _ after Hb Ha Hs).
Qed.

(** C5 (as amended). Ten of the twelve literals are their own lower-case
    form; ["chmod -R 777 /"] and ["chown -R"] are not. [check] looks up the
    lower-case form of each literal in the lower-cased command, so the
    comparison is case-insensitive all the same: a command that holds a
    literal of the table in any mix of upper and lower case is blocked with
    the reason of a literal of the table. *)
Theorem substrings_compared_in_lower_case :
  map (fun s => Py.lower (str_of s)) (DANGEROUS_SUBSTRINGS CommandSafety)
  = map str_of
      ["rm -rf /"; "rm -rf ~"; "rm -rf /*"; "rm -rf / "; "rm -rf $";
       "format c:"; "format d:"; "mkfs.ext"; "mkfs.ntfs"; ":(){ :|:& };:";
       "chmod -r 777 /"; "chown -r"]%string
  /\
  (forall cmd l,
      substring_matches (cmd_lower_of cmd) l
      = Py.contains (Py.lower (Py.strip cmd)) (Py.lower (str_of l)))
  /\
  (forall l v pre post,
      In l (DANGEROUS_SUBSTRINGS CommandSafety) ->
      map Py.ascii_lower v = map Py.ascii_lower (str_of l) ->
      exists s,
        In s (DANGEROUS_SUBSTRINGS CommandSafety) /\
        check CommandSafety (pre ++ v ++ post)
        = Returns (false, ("Blocked: potentially destructive (" ++ s ++ ")")%string)).
Proof.
  split; [vm_compute; reflexivity|]. split; [reflexivity|].
  exact literal_variant_blocked.
Qed.

(** C6. For [rm   -rf     /] no literal is found in the lower-cased
    command, which keeps the runs of spaces; the normalized command is
    [rm -rf /], the first pattern of the table matches it, and the verdict
    is unsafe with that pattern's reason. With any whitespace in the two
    gaps the normalized command is the same and the command is blocked. *)
Theorem irregular_spacing_caught_by_pattern :
  cmd_lower_of (str_of "rm   -rf     /") = str_of "rm   -rf     /" /\
  first_substring (DANGEROUS_SUBSTRINGS CommandSafety)
                  (cmd_lower_of (str_of "rm   -rf     /")) = None /\
  cmd_norm_of (str_of "rm   -rf     /") = str_of "rm -rf /" /\
  pattern_matches (str_of "rm -rf /") "\brm\s+-rf\s+[/~\$]" = true /\
  check CommandSafety (str_of "rm   -rf     /")
  = Returns (false, "Blocked: Recursive delete of root or home"%string) /\
  (forall ws1 ws2,
      ws1 <> [] -> ws2 <> [] ->
      forallb Py.isspace ws1 = true -> forallb Py.isspace ws2 = true ->
      cmd_norm_of (str_of "rm" ++ ws1 ++ str_of "-rf" ++ ws2 ++ str_of "/")
      = str_of "rm -rf /" /\
      exists reason,
        check CommandSafety (str_of "rm" ++ ws1 ++ str_of "-rf" ++ ws2 ++ str_of "/")
        = Returns (false, reason)).
Proof.
  repeat (split; [vm_compute; reflexivity|]).
  intros ws1 ws2 Hn1 Hn2 H1 H2.
  assert (Hnorm : cmd_norm_of (str_of "rm" ++ ws1 ++ str_of "-rf" ++ ws2 ++ str_of "/")
                  = str_of "rm -rf /").
  { unfold cmd_norm_of.
    rewrite (split_word_space (str_of "rm") ws1 _) by (assumption || discriminate || reflexivity).
    rewrite (split_word_space (str_of "-rf") ws2 _) by (assumption || discriminate || reflexivity).
    reflexivity. }
  split; [exact Hnorm|].
  apply pattern_match_blocked
    with (rule := ("\brm\s+-rf\s+[/~\$]", "Recursive delete of root or home")%string).
  - intros Hs. apply strip_nil_inv in Hs. discriminate.
  - simpl. tauto.
  - rewrite Hnorm. vm_compute. reflexivity.
Qed.

(** C7. [check] does not look at the case of ASCII letters: two ASCII
    commands that differ only in case get the same verdict, from any
    tables; [FORMAT C:] and [format c:] are both blocked, with the same
    reason. *)
Theorem check_ignores_case :
  (forall cls c1 c2,
      forallb Py.is_ascii c1 = true ->
      map Py.ascii_lower c1 = map Py.ascii_lower c2 ->
      check cls c1 = check cls c2) /\
  check CommandSafety (str_of "FORMAT C:")
  = Returns (false, "Blocked: potentially destructive (format c:)"%string) /\
  check CommandSafety (str_of "format c:")
  = Returns (false, "Blocked: potentially destructive (format c:)"%string).
Proof.
  split; [|split; vm_compute; reflexivity].
  intros cls c1 c2 H1 E.
  assert (H2 : forallb Py.is_ascii c2 = true)
    by exact (same_fold_ascii c2 c1 (eq_sym E) H1).
  now rewrite <- (check_fold cls c1 H1), E, (check_fold cls c2 H2).
Qed.

(** C8. Matching is not anchored: whatever stands before and after
    [rm -rf /] in a command, the command is blocked with that literal's
    reason, and so is every command holding any literal of the table; a
    pattern that matches after any prefix of the subject is found by the
    search, and a command that a pattern of the table matches is blocked
    wherever it stands in a longer command, set off by whitespace; in
    particular [echo hi && rm -rf /] is blocked. *)
Theorem embedded_danger_blocked :
  (forall pre post,
      check CommandSafety (pre ++ str_of "rm -rf /" ++ post)
      = Returns (false, "Blocked: potentially destructive (rm -rf /)"%string)) /\
  (forall l pre post,
      In l (DANGEROUS_SUBSTRINGS CommandSafety) ->
      exists s,
        In s (DANGEROUS_SUBSTRINGS CommandSafety) /\
        check CommandSafety (pre ++ str_of l ++ post)
        = Returns (false, ("Blocked: potentially destructive (" ++ s ++ ")")%string)) /\
  (forall pattern re prefix text,
      Re.compile pattern = Some re ->
      Re.match_at re (fold_left (fun _ c => Some c) prefix None) text = true ->
      Re.search pattern (prefix ++ text) = Returns true) /\
  (forall cmd1 ws cmd2 ws' cmd3,
      ws <> [] -> forallb Py.isspace ws = true ->
      ws' <> [] -> forallb Py.isspace ws' = true ->
      some_pattern_matches CommandSafety cmd2 = true ->
      exists reason,
        check CommandSafety (cmd1 ++ ws ++ cmd2 ++ ws' ++ cmd3)
        = Returns (false, reason)) /\
  check CommandSafety (str_of "echo hi && rm -rf /")
  = Returns (false, "Blocked: potentially destructive (rm -rf /)"%string).
Proof.
  split; [|split; [|split; [|split]]].
  - intros pre post.
    destruct (embedded_literal_matches "rm -rf /" (str_of "rm -rf /") pre post)
      as [Hne Hm]; try reflexivity.
    rewrite (check_not_blank _ _ Hne).
    change (DANGEROUS_SUBSTRINGS CommandSafety)
      with ([] ++ "rm -rf /"%string :: tl (DANGEROUS_SUBSTRINGS CommandSafety)).
    rewrite first_substring_first; [reflexivity | intros x [] | exact Hm].
  - intros l pre post Hin.
    now apply (literal_variant_blocked l (str_of l) pre post).
  - intros pattern re prefix text Hc Hm. unfold Re.search. rewrite Hc.
    now rewrite (search_from_unanchored _ _ _ _ Hm).
  - exact chained_pattern_blocked.
  - vm_compute. reflexivity.
Qed.

(** ** Calls of [check] in a process *)








(** C10. The word [shutdown] alone, in any mix of upper and lower case and
    with any whitespace around it, is declared safe: its normalized form is
    the word itself, which the pattern [\bshutdown\s+] does not match for
    want of a whitespace character after the word, and no other rule holds
    of it. Followed by whitespace and anything that is not blank, as in
    [shutdown now], it is blocked. *)
Theorem bare_shutdown_is_safe (word ws1 ws2 : str) :
  map Py.ascii_lower word = str_of "shutdown" ->
  forallb Py.isspace ws1 = true ->
  forallb Py.isspace ws2 = true ->
  cmd_norm_of (ws1 ++ word ++ ws2) = word /\
  pattern_matches word "\bshutdown\s+" = false /\
  check CommandSafety (ws1 ++ word ++ ws2) = Returns (true, ""%string) /\
  check CommandSafety (str_of "shutdown now")
  = Returns (false, "Blocked: System shutdown"%string) /\
  (forall ws rest,
      ws <> [] -> forallb Py.isspace ws = true -> Py.strip rest <> [] ->
      exists reason,
        check CommandSafety (word ++ ws ++ rest) = Returns (false, reason)).
Proof.
  intros Hword H1 H2.
  assert (Hfold : map Py.ascii_lower word = map Py.ascii_lower (str_of "shutdown"))
    by exact Hword.
  assert (Hascii : forallb Py.is_ascii word = true)
    by exact (same_fold_ascii _ _ Hfold eq_refl).
  assert (Hstart : starts_nonspace word = true)
    by now rewrite (same_fold_starts_nonspace _ _ Hfold).
  assert (Hend : starts_nonspace (rev word) = true).
  { rewrite (same_fold_starts_nonspace (rev word) (rev (str_of "shutdown")));
      [reflexivity | now rewrite !map_rev, Hfold]. }
  assert (Hnonspace : forallb (fun c => negb (Py.isspace c)) word = true)
    by now rewrite <- nonspace_fold, Hword.
  assert (Hne : word <> []) by (destruct word; [discriminate Hstart | discriminate]).
  assert (Hstrip : Py.strip (ws1 ++ word ++ ws2) = word)
    by (apply strip_padded; assumption).
  assert (Hsplit : Py.split (ws1 ++ word ++ ws2) = [word])
    by (apply split_padded; assumption).
  assert (Hnorm : cmd_norm_of (ws1 ++ word ++ ws2) = word)
    by (unfold cmd_norm_of; now rewrite Hsplit).
  split; [exact Hnorm|].
  split; [rewrite <- pattern_matches_fold, Hword; vm_compute; reflexivity|].
  split.
  { rewrite check_not_blank by now rewrite Hstrip.
    rewrite Hnorm. unfold cmd_lower_of.
    rewrite Hstrip, (lower_ascii _ Hascii), <- first_pattern_fold, Hword.
    vm_compute. reflexivity. }
  split; [vm_compute; reflexivity|].
  intros ws rest Hws Hsp Hrest.
  apply pattern_match_blocked with (rule := ("\bshutdown\s+", "System shutdown")%string).
  - intros Hs. apply strip_nil_inv in Hs.
    rewrite forallb_app in Hs. apply andb_prop in Hs as [Hs _].
    destruct word as [|c t]; [contradiction|].
    simpl in Hs, Hstart. apply andb_prop in Hs as [Hc _].
    rewrite Hc in Hstart. discriminate.
  - simpl. tauto.
  - unfold cmd_norm_of.
    rewrite (split_word_space word ws rest Hne Hnonspace Hws Hsp).
    destruct (Py.split rest) as [|w more] eqn:E;
      [exact (False_ind _ (split_not_blank _ Hrest E))|].
    change (Py.join (str_of " ") (word :: w :: more))
      with (word ++ str_of " " ++ Py.join (str_of " ") (w :: more)).
    rewrite <- pattern_matches_fold, !map_app, Hword.
    generalize (map Py.ascii_lower (Py.join (str_of " ") (w :: more))).
    intros tail. destruct tail; lazy; reflexivity.
Qed.

End Claims.

(** * Instances *)

(** Commands that match no rule. *)
Example benign_commands_safe :
  check (U := ascii_only) CommandSafety (str_of "ls -la") = Returns (true, ""%string) /\
  check (U := ascii_only) CommandSafety (str_of "echo hello") = Returns (true, ""%string).
Proof. split; reflexivity. Qed.

(** C4, at four whitespace characters (a space, a tab, a line feed and the
    ideographic space), with a table whose only pattern does not compile
    and whose only literal is the empty string, found in every command. *)
Lemma check_blank_witness :
  forallb Py.isspace [32; 9; 10; 12288]%N = true /\
  check (U := ascii_only)
        {| DANGEROUS_PATTERNS := [("(", "never read")%string];
           DANGEROUS_SUBSTRINGS := [""%string] |}
        [32; 9; 10; 12288]%N
  = Returns (true, ""%string).
Proof.
  split; [reflexivity|].
  apply check_blank. reflexivity.
Defined.

(** C10, at [ShutDown] with a tab and a space before the word and a space,
    a line feed and a no-break space after it. *)
Lemma bare_shutdown_is_safe_witness :
  map Py.ascii_lower (str_of "ShutDown") = str_of "shutdown" /\
  forallb Py.isspace [9; 32]%N = true /\
  forallb Py.isspace [32; 10; 160]%N = true /\
  check (U := ascii_only) CommandSafety
        ([9; 32]%N ++ str_of "ShutDown" ++ [32; 10; 160]%N)%list
  = Returns (true, ""%string).
Proof.
  split; [reflexivity|]. split; [reflexivity|]. split; [reflexivity|].
  exact (proj1 (proj2 (proj2
    (@bare_shutdown_is_safe ascii_only (str_of "ShutDown")
       [9; 32]%N [32; 10; 160]%N eq_refl eq_refl eq_refl)))).
Defined.

(** C2, at a command whose first literal is the seventh of the table, and
    at one that holds no literal and whose first pattern is the third. *)
Lemma check_substrings_before_patterns_witness :
  check (U := ascii_only) CommandSafety (str_of "echo y | format d: /q")
  = Returns (false, "Blocked: potentially destructive (format d:)"%string) /\
  check (U := ascii_only) CommandSafety (str_of "del /s /q C:\Users")
  = Returns (false, "Blocked: Delete with /s /q (tree wipe)"%string).
Proof.
  destruct (@check_substrings_before_patterns ascii_only) as (Hsub & Hpat & _).
  split.
  - apply (Hsub _ (firstn 6 (DANGEROUS_SUBSTRINGS CommandSafety)) "format d:"%string
                  (skipn 7 (DANGEROUS_SUBSTRINGS CommandSafety))).
    + reflexivity.
    + intros s Hs. simpl in Hs.
      repeat (destruct Hs as [<-|Hs]; [reflexivity|]). contradiction.
    + reflexivity.
  - apply (Hpat _ (firstn 2 (DANGEROUS_PATTERNS CommandSafety))
                  "del\s+/[sq]\s+"%string "Delete with /s /q (tree wipe)"%string
                  (skipn 3 (DANGEROUS_PATTERNS CommandSafety))).
    + reflexivity.
    + reflexivity.
    + intros rule Hr. simpl in Hr.
      repeat (destruct Hr as [<-|Hr]; [reflexivity|]). contradiction.
    + reflexivity.
Defined.


(** C5, as the claim states it, fails: ["chown -R"] is a literal of the
    table and is not its own lower-case form, whatever the Unicode tables
    hold. *)
Lemma substrings_not_all_lowercase :
  exists s,
    In s (DANGEROUS_SUBSTRINGS CommandSafety) /\
    forall U : UnicodeData, @Py.lower U (str_of s) <> str_of s.
Proof.
  exists "chown -R"%string. split; [simpl; tauto|].
  intros U. vm_compute. discriminate.
Qed.

(** * More about [check] and its tables *)

Section MoreAboutCheck.
Context {U : UnicodeData}.

Local Open Scope list_scope.

(** ** Whitespace around a command *)

Lemma rstrip_skip_space (s ws : str) :
  forallb Py.isspace ws = true -> Py.rstrip (s ++ ws) = Py.rstrip s.
Proof.
  intros H. unfold Py.rstrip.
  rewrite rev_app_distr, lstrip_skip_space by now rewrite forallb_rev_eq.
  reflexivity.
Qed.

Lemma strip_trailing_space (s ws : str) :
  forallb Py.isspace ws = true -> Py.strip (s ++ ws) = Py.strip s.
Proof.
  intros H. unfold Py.strip. induction s as [|c t IH]; simpl.
  - now rewrite (lstrip_all_space _ H).
  - destruct (Py.isspace c); [exact IH|].
    exact (rstrip_skip_space (c :: t) ws H).
Qed.

Lemma strip_padding (ws1 s ws2 : str) :
  forallb Py.isspace ws1 = true -> forallb Py.isspace ws2 = true ->
  Py.strip (ws1 ++ s ++ ws2) = Py.strip s.
Proof.
  intros H1 H2. rewrite <- (strip_trailing_space s ws2 H2).
  unfold Py.strip. now rewrite (lstrip_skip_space _ _ H1).
Qed.

Lemma split_from_trailing (word s ws : str) :
  forallb Py.isspace ws = true ->
  Py.split_from word (s ++ ws) = Py.split_from word s.
Proof.
  intros H. revert word. induction s as [|c t IH]; intros word; simpl.
  - destruct word as [|w word'].
    + now apply split_from_all_space.
    + apply split_from_trailing_space; [discriminate | exact H].
  - destruct (Py.isspace c).
    + destruct word; now rewrite IH.
    + apply IH.
Qed.

Lemma split_padding (ws1 s ws2 : str) :
  forallb Py.isspace ws1 = true -> forallb Py.isspace ws2 = true ->
  Py.split (ws1 ++ s ++ ws2) = Py.split s.
Proof.
  intros H1 H2. unfold Py.split.
  now rewrite (split_from_skip_space _ _ H1), (split_from_trailing _ _ _ H2).
Qed.

(** [check] reads its argument only through [strip] and [split]. *)
Lemma check_reads_strip_split (cls : RuleTables) (a b : str) :
  Py.strip a = Py.strip b -> Py.split a = Py.split b ->
  check cls a = check cls b.
Proof.
  intros Hs Hp. unfold check, cmd_lower_of, cmd_norm_of.
  now rewrite !blank_test, Hs, Hp.
Qed.

(** X1. Whitespace before and after a command never changes the verdict,
    whatever the tables hold. *)
Theorem check_ignores_padding (cls : RuleTables) (ws1 cmd ws2 : str) :
  forallb Py.isspace ws1 = true ->
  forallb Py.isspace ws2 = true ->
  check cls (ws1 ++ cmd ++ ws2) = check cls cmd.
Proof.
  intros H1 H2. apply check_reads_strip_split.
  - now apply strip_padding.
  - now apply split_padding.
Qed.

(** ** The normalized command *)

Lemma split_from_clean (word s : str) :
  forallb (fun c => negb (Py.isspace c)) word = true ->
  Forall (fun w => w <> [] /\ forallb (fun c => negb (Py.isspace c)) w = true)
         (Py.split_from word s).
Proof.
  revert word. induction s as [|c t IH]; intros word Hw; simpl.
  - destruct word; constructor; [split; [discriminate | exact Hw] | constructor].
  - destruct (Py.isspace c) eqn:Hc.
    + destruct word; [now apply IH|].
      constructor; [split; [discriminate | exact Hw] | now apply IH].
    + apply IH. rewrite forallb_app, Hw. simpl. now rewrite Hc.
Qed.

Lemma split_clean (s : str) :
  Forall (fun w => w <> [] /\ forallb (fun c => negb (Py.isspace c)) w = true)
         (Py.split s).
Proof. now apply split_from_clean. Qed.

(** Splitting what was joined with single spaces gives the words back. *)
Lemma split_join (words : list str) :
  Forall (fun w => w <> [] /\ forallb (fun c => negb (Py.isspace c)) w = true) words ->
  Py.split (Py.join (str_of " ") words) = words.
Proof.
  induction words as [|w rest IH]; intros H; [reflexivity|].
  inversion H as [|? ? [Hne Hw] Hrest]; subst.
  destruct rest as [|w' rest'].
  - simpl. rewrite <- (app_nil_r w) at 1.
    change (w ++ []) with ([] ++ w ++ []).
    now apply split_padded.
  - change (Py.join (str_of " ") (w :: w' :: rest'))
      with (w ++ str_of " " ++ Py.join (str_of " ") (w' :: rest')).
    rewrite (split_word_space w (str_of " ") _ Hne Hw) by (discriminate || reflexivity).
    now rewrite (IH Hrest).
Qed.

Lemma join_only_spaces (words : list str) (c : N) :
  Forall (fun w => w <> [] /\ forallb (fun c => negb (Py.isspace c)) w = true) words ->
  In c (Py.join (str_of " ") words) -> Py.isspace c = true -> c = 32%N.
Proof.
  induction words as [|w rest IH]; intros H Hin Hc; [contradiction|].
  inversion H as [|? ? [Hne Hw] Hrest]; subst.
  assert (Hword : In c w -> False).
  { intros Hcw. rewrite forallb_forall in Hw. specialize (Hw _ Hcw).
    rewrite Hc in Hw. discriminate. }
  destruct rest as [|w' rest']; [now apply Hword in Hin|].
  change (Py.join (str_of " ") (w :: w' :: rest'))
    with (w ++ str_of " " ++ Py.join (str_of " ") (w' :: rest')) in Hin.
  apply in_app_or in Hin as [Hin|Hin]; [now apply Hword in Hin|].
  destruct Hin as [<-|Hin]; [reflexivity|]. now apply IH.
Qed.

Lemma join_starts_nonspace (words : list str) :
  Forall (fun w => w <> [] /\ forallb (fun c => negb (Py.isspace c)) w = true) words ->
  words <> [] ->
  starts_nonspace (Py.join (str_of " ") words) = true.
Proof.
  intros H Hne. destruct words as [|w rest]; [contradiction|].
  inversion H as [|? ? [Hw Hclean] _]; subst.
  assert (Hs : starts_nonspace w = true).
  { destruct w as [|c t]; [contradiction|]. simpl in *.
    now apply andb_prop in Hclean as [Hc _]. }
  destruct rest; [exact Hs | now apply starts_nonspace_app].
Qed.

Lemma join_ends_nonspace (words : list str) :
  Forall (fun w => w <> [] /\ forallb (fun c => negb (Py.isspace c)) w = true) words ->
  words <> [] ->
  starts_nonspace (rev (Py.join (str_of " ") words)) = true.
Proof.
  induction words as [|w rest IH]; intros H Hne; [contradiction|].
  inversion H as [|? ? [Hw Hclean] Hrest]; subst.
  destruct rest as [|w' rest'].
  - simpl. rewrite <- forallb_rev_eq in Hclean.
    destruct (rev w) as [|c t] eqn:E.
    + apply (f_equal (@rev N)) in E. rewrite rev_involutive in E. contradiction.
    + simpl in *. now apply andb_prop in Hclean as [Hc _].
  - change (Py.join (str_of " ") (w :: w' :: rest'))
      with (w ++ str_of " " ++ Py.join (str_of " ") (w' :: rest')).
    rewrite !rev_app_distr, <- app_assoc.
    apply starts_nonspace_app. apply IH; [exact Hrest | discriminate].
Qed.

(** X2. The normalized command keeps the words of the command, is its own
    normalized form, has no whitespace at either end, and has no
    whitespace character other than the space; so the pattern pass sees the
    same text for a command and for its normalized form. *)
Theorem cmd_norm_is_normal (cmd : str) :
  Py.split (cmd_norm_of cmd) = Py.split cmd /\
  cmd_norm_of (cmd_norm_of cmd) = cmd_norm_of cmd /\
  Py.strip (cmd_norm_of cmd) = cmd_norm_of cmd /\
  (forall c, In c (cmd_norm_of cmd) -> Py.isspace c = true -> c = 32%N) /\
  (forall cls,
      first_pattern (DANGEROUS_PATTERNS cls) (cmd_norm_of (cmd_norm_of cmd))
      = first_pattern (DANGEROUS_PATTERNS cls) (cmd_norm_of cmd)).
Proof.
  assert (Hsplit : Py.split (cmd_norm_of cmd) = Py.split cmd)
    by (apply split_join, split_clean).
  assert (Hidem : cmd_norm_of (cmd_norm_of cmd) = cmd_norm_of cmd)
    by (unfold cmd_norm_of at 1; now rewrite Hsplit).
  split; [exact Hsplit|]. split; [exact Hidem|]. split; [|split].
  - unfold cmd_norm_of. destruct (Py.split cmd) as [|w rest] eqn:E; [reflexivity|].
    rewrite <- (app_nil_r (Py.join _ _)) at 1.
    change (Py.join (str_of " ") (w :: rest) ++ [])
      with ([] ++ Py.join (str_of " ") (w :: rest) ++ []).
    assert (Hc := split_clean cmd). rewrite E in Hc.
    apply strip_padded; try reflexivity.
    + apply join_starts_nonspace; [exact Hc | discriminate].
    + apply join_ends_nonspace; [exact Hc | discriminate].
  - intros c. apply join_only_spaces, split_clean.
  - intros cls. now rewrite Hidem.
Qed.

(** ** Rules that never decide *)

Lemma startswith_shorter (h n x : str) :
  Py.startswith h (n ++ x) = true -> Py.startswith h n = true.
Proof.
  revert h. induction n as [|c t IH]; intros h; simpl.
  - now destruct h.
  - destruct h as [|d h']; [discriminate|].
    intros H. apply andb_prop in H as [Hc Ht].
    apply andb_true_intro. split; [exact Hc | exact (IH _ Ht)].
Qed.

(** A string that holds a longer needle holds each of its prefixes. *)
Lemma contains_shorter (h n x : str) :
  Py.contains h (n ++ x) = true -> Py.contains h n = true.
Proof.
  assert (Hunfold : forall hay needle,
             Py.contains hay needle
             = Py.startswith hay needle
               || match hay with [] => false | _ :: hay' => Py.contains hay' needle end)
    by (intros [|? ?] ?; reflexivity).
  induction h as [|d h' IH]; rewrite (Hunfold _ (n ++ x)), (Hunfold _ n);
    intros H; apply orb_prop in H as [H|H].
  - now rewrite (startswith_shorter _ _ _ H).
  - discriminate.
  - now rewrite (startswith_shorter _ _ _ H).
  - rewrite (IH H). apply orb_true_r.
Qed.

(** The first loop never stops at ["rm -rf /*"] or at ["rm -rf / "]: a
    command that holds one of them holds ["rm -rf /"], tried first. *)
Lemma first_substring_shadowed (t : str) :
  first_substring (DANGEROUS_SUBSTRINGS CommandSafety) t <> Some "rm -rf /*"%string /\
  first_substring (DANGEROUS_SUBSTRINGS CommandSafety) t <> Some "rm -rf / "%string.
Proof.
  cbn [first_substring DANGEROUS_SUBSTRINGS CommandSafety].
  destruct (substring_matches t "rm -rf /") eqn:E1; [split; discriminate|].
  destruct (substring_matches t "rm -rf ~") eqn:E2; [split; discriminate|].
  assert (H3 : substring_matches t "rm -rf /*" = false).
  { destruct (substring_matches t "rm -rf /*") eqn:E; [|reflexivity].
    unfold substring_matches in E, E1.
    change (Py.lower (str_of "rm -rf /*"))
      with (Py.lower (str_of "rm -rf /") ++ [42%N]) in E.
    apply contains_shorter in E. congruence. }
  assert (H4 : substring_matches t "rm -rf / " = false).
  { destruct (substring_matches t "rm -rf / ") eqn:E; [|reflexivity].
    unfold substring_matches in E, E1.
    change (Py.lower (str_of "rm -rf / "))
      with (Py.lower (str_of "rm -rf /") ++ [32%N]) in E.
    apply contains_shorter in E. congruence. }
  rewrite H3, H4.
  repeat match goal with
         | |- context [if substring_matches t ?l then _ else _] =>
             destruct (substring_matches t l); [split; discriminate|]
         end.
  split; discriminate.
Qed.

(** Monotonicity of the matcher in what follows a prefix of the pattern. *)
Lemma one_then_mono (k k' : option N -> str -> bool) (a a' : Re.atom) (text : str) :
  (forall x, Re.atom_matches a x = true -> Re.atom_matches a' x = true) ->
  (forall p t, k p t = true -> k' p t = true) ->
  Re.one_then k a text = true -> Re.one_then k' a' text = true.
Proof.
  intros Ha Hk. destruct text as [|c t]; simpl; [discriminate|].
  intros H. apply andb_prop in H as [H1 H2].
  now rewrite (Ha _ H1), (Hk _ _ H2).
Qed.

Lemma repeat_then_mono (k k' : option N -> str -> bool) (a : Re.atom)
      (prev : option N) (text : str) :
  (forall p t, k p t = true -> k' p t = true) ->
  Re.repeat_then k a prev text = true -> Re.repeat_then k' a prev text = true.
Proof.
  intros Hk. revert prev. induction text as [|c t IH]; intros prev; simpl.
  - rewrite !orb_false_r. apply Hk.
  - intros H. apply orb_prop in H as [H|H].
    + now rewrite (Hk _ _ H).
    + apply andb_prop in H as [H1 H2].
      rewrite H1, (IH _ H2). apply orb_true_r.
Qed.

Lemma match_at_tail_mono (re tail tail' : Re.regex) :
  (forall p t, Re.match_at tail p t = true -> Re.match_at tail' p t = true) ->
  forall p t, Re.match_at (re ++ tail) p t = true ->
              Re.match_at (re ++ tail') p t = true.
Proof.
  intros Ht. induction re as [|nd re' IH]; [exact Ht|].
  intros p t. destruct nd as [|a q]; simpl.
  - intros H. apply andb_prop in H as [H1 H2]. now rewrite H1, (IH _ _ H2).
  - destruct q.
    + apply one_then_mono; auto.
    + apply repeat_then_mono; auto.
    + apply one_then_mono; auto. intros p' t'. apply repeat_then_mono; auto.
    + intros H. apply orb_prop in H as [H|H].
      * now rewrite (one_then_mono _ _ a a t (fun _ h => h) IH H).
      * rewrite (IH _ _ H). apply orb_true_r.
Qed.

Lemma search_from_mono (re re' : Re.regex) :
  (forall p t, Re.match_at re p t = true -> Re.match_at re' p t = true) ->
  forall p t, Re.search_from re p t = true -> Re.search_from re' p t = true.
Proof.
  intros Hm p t. revert p. induction t as [|c t' IH]; intros p; simpl.
  - rewrite !orb_false_r. apply Hm.
  - intros H. apply orb_prop in H as [H|H].
    + now rewrite (Hm _ _ H).
    + rewrite (IH _ H). apply orb_true_r.
Qed.

(** Whatever the second pattern of the table matches, the first one
    matches: they differ in the last atom, [/] against [[/~\$]]. *)
Lemma second_pattern_shadowed (t : str) :
  pattern_matches t "\brm\s+-rf\s+/" = true ->
  pattern_matches t "\brm\s+-rf\s+[/~\$]" = true.
Proof.
  unfold pattern_matches, Re.search.
  change (Re.compile "\brm\s+-rf\s+/")
    with (Some (firstn 8 (match Re.compile "\brm\s+-rf\s+/" with
                          | Some re => re | None => [] end)
                ++ [Re.Item (Re.LITERAL 47) Re.Once])).
  change (Re.compile "\brm\s+-rf\s+[/~\$]")
    with (Some (firstn 8 (match Re.compile "\brm\s+-rf\s+/" with
                          | Some re => re | None => [] end)
                ++ [Re.Item (Re.IN [Re.SetChar 47; Re.SetChar 126; Re.SetChar 36]) Re.Once])).
  set (common := firstn 8 _).
  cbv beta iota.
  destruct (Re.search_from (common ++ [Re.Item (Re.LITERAL 47) Re.Once]) None t) eqn:E;
    [intros _ | discriminate].
  assert (Hlast : forall p t',
             Re.match_at [Re.Item (Re.LITERAL 47) Re.Once] p t' = true ->
             Re.match_at
               [Re.Item (Re.IN [Re.SetChar 47; Re.SetChar 126; Re.SetChar 36]) Re.Once]
               p t' = true).
  { intros p t'. apply one_then_mono; [|auto].
    intros x Hx. simpl in *. now rewrite Hx. }
  now rewrite (search_from_mono _ _ (match_at_tail_mono common _ _ Hlast) None t E).
Qed.

(** The second loop never stops at the second pattern. *)
Lemma first_pattern_shadowed (t : str) :
  first_pattern (DANGEROUS_PATTERNS CommandSafety) t
  <> Returns (Some "Recursive delete including root path"%string).
Proof.
  intros H.
  change (DANGEROUS_PATTERNS CommandSafety)
    with (("\brm\s+-rf\s+[/~\$]", "Recursive delete of root or home")%string
          :: ("\brm\s+-rf\s+/", "Recursive delete including root path")%string
          :: skipn 2 (DANGEROUS_PATTERNS CommandSafety)) in H.
  cbn [first_pattern] in H.
  rewrite (search_returns "\brm\s+-rf\s+[/~\$]" t eq_refl) in H.
  destruct (pattern_matches t "\brm\s+-rf\s+[/~\$]") eqn:E1; [discriminate|].
  assert (E2 : pattern_matches t "\brm\s+-rf\s+/" = false).
  { destruct (pattern_matches t "\brm\s+-rf\s+/") eqn:E; [|reflexivity].
    apply second_pattern_shadowed in E. congruence. }
  rewrite (search_returns "\brm\s+-rf\s+/" t eq_refl), E2 in H.
  apply first_pattern_some in H as (pattern & Hin & _).
  simpl in Hin.
  repeat (destruct Hin as [Hin|Hin]; [discriminate Hin|]). contradiction.
Qed.

(** X3. Three rules of the tables never decide a verdict: a command that
    holds ["rm -rf /*"] or ["rm -rf / "] holds ["rm -rf /"], which is
    tried first, and whatever the pattern [\brm\s+-rf\s+/] matches, the
    pattern before it matches. So [check] never gives the reasons of these
    three rules. *)
Theorem shadowed_rules_never_reported (cmd : str) :
  exists (is_safe : bool) (reason : string),
    check CommandSafety cmd = Returns (is_safe, reason) /\
    reason <> "Blocked: potentially destructive (rm -rf /*)"%string /\
    reason <> "Blocked: potentially destructive (rm -rf / )"%string /\
    reason <> "Blocked: Recursive delete including root path"%string.
Proof.
  destruct (Py.strip cmd) eqn:Hs.
  - exists true, ""%string. rewrite (check_blank_eq _ _ Hs).
    repeat split; discriminate.
  - rewrite check_not_blank by (rewrite Hs; discriminate).
    destruct (first_substring_shadowed (cmd_lower_of cmd)) as [D1 D2].
    destruct (first_substring _ _) as [substr|] eqn:E1.
    + exists false, ("Blocked: potentially destructive (" ++ substr ++ ")")%string.
      split; [reflexivity|].
      destruct (first_substring_some _ _ _ E1) as [Hin _]. simpl in Hin.
      repeat (destruct Hin as [<-|Hin];
              [repeat split; solve [discriminate | congruence]|]).
      contradiction.
    + assert (D3 := first_pattern_shadowed (cmd_norm_of cmd)).
      destruct (first_pattern_returns _ (cmd_norm_of cmd) patterns_compile)
        as [[category|] Er]; rewrite Er.
      * exists false, ("Blocked: " ++ category)%string.
        split; [reflexivity|].
        destruct (first_pattern_some _ _ _ Er) as (pattern & Hin & _).
        simpl in Hin.
        repeat (destruct Hin as [[= <- <-]|Hin];
                [repeat split; solve [discriminate | congruence]|]).
        contradiction.
      * exists true, ""%string. repeat split; discriminate.
Qed.

End MoreAboutCheck.

(** * The application *)

Section Environment.

Import Py PyStr App.
Local Open Scope list_scope.

Lemma or_else_not_placeholder (a b : str) :
  is_placeholder a = false -> is_placeholder b = false ->
  is_placeholder (or_else a b) = false.
Proof. unfold or_else. now destruct (truthy a). Qed.

(** X4. [get_env] never returns a placeholder [__...__] when the default is
    not one: a variable set to a placeholder reads as the empty string, a
    variable that is unset or empty reads as the default, and any other
    value is returned as it is. *)
Theorem get_env_never_placeholder (env : environ) (key : string) (default : str) :
  is_placeholder default = false ->
  is_placeholder (get_env env key default) = false /\
  (forall val, env key = Some val -> is_placeholder val = true ->
               get_env env key default = []) /\
  (forall val, env key = Some val -> truthy val = true ->
               is_placeholder val = false -> get_env env key default = val) /\
  (env key = Some [] \/ env key = None -> get_env env key default = default).
Proof.
  intros Hd. unfold get_env, getenv.
  fold (is_placeholder (match env key with Some val => val | None => default end)).
  repeat split.
  - destruct (env key) as [val|].
    + destruct (is_placeholder val) eqn:E; [reflexivity|].
      now apply or_else_not_placeholder.
    + rewrite Hd. now apply or_else_not_placeholder.
  - intros val -> Hp. now rewrite Hp.
  - intros val -> Ht Hp. rewrite Hp. unfold or_else. now rewrite Ht.
  - intros [->| ->].
    + reflexivity.
    + rewrite Hd. unfold or_else. now destruct (truthy default).
Qed.

Lemma get_env_empty_default (env : environ) (key : string) :
  is_placeholder (get_env env key []) = false.
Proof. now apply get_env_never_placeholder. Qed.

(** X5. [_init_openai] leaves a client exactly when the library was
    imported and one of [OPENROUTER_API_KEY], [OPENAI_API_KEY] reads as a
    non-empty value; so keys that are unset, empty or placeholders leave
    none. The client's key is never empty and never a placeholder. *)
Theorem init_openai_needs_a_key (env : environ) (OpenAI : bool) (model : str) :
  (_init_openai env OpenAI model = None <->
   OpenAI = false \/
   (get_env env "OPENROUTER_API_KEY" [] = [] /\ get_env env "OPENAI_API_KEY" [] = [])) /\
  (forall c, _init_openai env OpenAI model = Some c ->
             truthy (api_key c) = true /\ is_placeholder (api_key c) = false) /\
  ((forall key, key = "OPENROUTER_API_KEY"%string \/ key = "OPENAI_API_KEY"%string ->
      env key = None \/ env key = Some [] \/
      exists val, env key = Some val /\ is_placeholder val = true) ->
   _init_openai env OpenAI model = None).
Proof.
  assert (Hiff : _init_openai env OpenAI model = None <->
                 OpenAI = false \/
                 (get_env env "OPENROUTER_API_KEY" [] = [] /\
                  get_env env "OPENAI_API_KEY" [] = [])).
  { unfold _init_openai, or_else.
    destruct (get_env env "OPENROUTER_API_KEY" []) as [|c1 k1];
      destruct (get_env env "OPENAI_API_KEY" []) as [|c2 k2];
      destruct OpenAI; simpl; split; intros H; auto; try discriminate;
      destruct H as [H|[H1 H2]]; discriminate. }
  split; [exact Hiff|]. split.
  - intros c. unfold _init_openai.
    destruct (truthy (or_else _ _) && OpenAI) eqn:E; [|discriminate].
    intros [= <-]. simpl. apply andb_prop in E as [E _]. split; [exact E|].
    apply or_else_not_placeholder; apply get_env_empty_default.
  - intros H. apply Hiff. right.
    assert (Hkey : forall key,
               env key = None \/ env key = Some [] \/
               (exists val, env key = Some val /\ is_placeholder val = true) ->
               get_env env key [] = []).
    { intros key [Hk|[Hk|(val & Hk & Hp)]].
      - now apply get_env_never_placeholder; auto.
      - now apply get_env_never_placeholder; auto.
      - now apply (proj1 (proj2 (get_env_never_placeholder env key [] eq_refl)) val). }
    split; apply Hkey, H; auto.
Qed.

(** X6. In [app.py], a client built while [OPENROUTER_API_KEY] reads as a
    non-empty value carries that key and always an explicit [base_url]:
    the value of [OPENAI_BASE_URL] when that reads as non-empty, the
    OpenRouter address otherwise. *)
Theorem init_openai_openrouter_endpoint (env : environ) (model : str) (c : client) :
  _init_openai env true model = Some c ->
  truthy (get_env env "OPENROUTER_API_KEY" []) = true ->
  api_key c = get_env env "OPENROUTER_API_KEY" [] /\
  base_url c = Some (if truthy (get_env env "OPENAI_BASE_URL" [])
                     then get_env env "OPENAI_BASE_URL" []
                     else openrouter_url).
Proof.
  unfold _init_openai, or_else. intros H Hk.
  destruct (get_env env "OPENROUTER_API_KEY" []) as [|c1 k1]; [discriminate Hk|].
  simpl in H. injection H as <-. simpl. split; [reflexivity|].
  now destruct (get_env env "OPENAI_BASE_URL" []).
Qed.

(** X7. In [ZaneAI.py] the same situation ends otherwise: with only
    [OPENROUTER_API_KEY] readable, no [OPENAI_BASE_URL] and a model name
    without [/] (the default [gpt-4o-mini] is one), [_init_client] builds
    the client with the OpenRouter key and no [base_url], where
    [_init_openai] of [app.py] gives it the OpenRouter address. *)
Theorem init_client_openrouter_default_endpoint (env : environ) :
  get_env env "OPENAI_API_KEY" [] = [] ->
  truthy (get_env env "OPENROUTER_API_KEY" []) = true ->
  get_env env "OPENAI_BASE_URL" [] = [] ->
  contains (model_of env) (str_of "/") = false ->
  _init_client env true (model_of env)
  = Some {| api_key := get_env env "OPENROUTER_API_KEY" []; base_url := None |} /\
  _init_openai env true (model_of env)
  = Some {| api_key := get_env env "OPENROUTER_API_KEY" [];
            base_url := Some openrouter_url |}.
Proof.
  intros H1 H2 H3 H4. unfold _init_client, _init_openai, or_else.
  rewrite H1, H3, H4.
  destruct (get_env env "OPENROUTER_API_KEY" []) as [|c1 k1]; [discriminate H2|].
  split; reflexivity.
Qed.

End Environment.

Section RetryLoop.
Context {U : UnicodeData}.

Import Py PyStr App.
Local Open Scope list_scope.

Lemma calls_retried (attempt k : nat) : calls (retried attempt k) = k.
Proof.
  revert attempt. induction k as [|k IH]; intros attempt; [reflexivity|].
  unfold retried in *. simpl. unfold calls in *. simpl. now rewrite IH.
Qed.

Lemma calls_app (a b : list effect) : calls (a ++ b) = calls a + calls b.
Proof. unfold calls. now rewrite filter_app, length_app. Qed.

Lemma sleeps_app (a b : list effect) : sleeps (a ++ b) = sleeps a ++ sleeps b.
Proof.
  induction a as [|e a' IH]; [reflexivity|].
  destruct e; simpl; now rewrite IH.
Qed.

Lemma sleeps_retried (attempt k : nat) :
  sleeps (retried attempt k) = map (fun i => Nat.pow 2 (i + 1)) (seq attempt k).
Proof.
  revert attempt. induction k as [|k IH]; intros attempt; [reflexivity|].
  unfold retried in *. simpl. now rewrite IH.
Qed.

(** The waits double from two seconds on: [k] of them add up to
    [2 ^ (k + 1) - 2] seconds. *)
Lemma backoff_sum (k : nat) :
  list_sum (map (fun i => Nat.pow 2 (i + 1)) (seq 0 k)) + 2 = Nat.pow 2 (k + 1).
Proof.
  induction k as [|k IH]; [reflexivity|].
  rewrite seq_S, map_app, list_sum_app. simpl list_sum.
  replace (S k + 1) with (S (k + 1)) by lia.
  rewrite Nat.pow_succ_r'. lia.
Qed.

(** While the calls fail with rate-limit errors and retries are left, the
    loop logs, sleeps and goes on. *)
Lemma retry_from_retried (api : nat -> api_outcome) (max_retries k r : nat) :
  forall attempt last_exc,
    attempt + k <= max_retries ->
    (forall i, attempt <= i < attempt + k ->
               exists message, api i = Fails message /\ is_rate_limit message = true) ->
    exists last_exc',
      retry_from api max_retries (k + r) attempt last_exc
      = (fst (retry_from api max_retries r (attempt + k) last_exc'),
         retried attempt k
         ++ snd (retry_from api max_retries r (attempt + k) last_exc')).
Proof.
  induction k as [|k IH]; intros attempt last_exc Hle Hfail.
  - exists last_exc. rewrite Nat.add_0_r. simpl.
    now destruct (retry_from api max_retries r attempt last_exc).
  - destruct (Hfail attempt ltac:(lia)) as (message & Hapi & Hrate).
    destruct (IH (S attempt) (Some message) ltac:(lia)) as [last_exc' E].
    { intros i Hi. apply Hfail. lia. }
    exists last_exc'. simpl. rewrite Hapi, Hrate.
    replace (Nat.ltb attempt max_retries) with true by (symmetry; apply Nat.ltb_lt; lia).
    rewrite E. replace (attempt + S k) with (S attempt + k) by lia.
    reflexivity.
Qed.

Lemma retry_from_invariant (api : nat -> api_outcome) (max_retries : nat) :
  forall remaining attempt last_exc,
    attempt + S remaining = max_retries + 1 ->
    let result := retry_from api max_retries (S remaining) attempt last_exc in
    calls (snd result) = List.length (sleeps (snd result)) + 1 /\
    List.length (sleeps (snd result)) <= remaining /\
    sleeps (snd result)
    = map (fun i => Nat.pow 2 (i + 1)) (seq attempt (List.length (sleeps (snd result)))) /\
    (forall last, fst result <> RaisedLast last).
Proof.
  induction remaining as [|remaining IH]; intros attempt last_exc Hsum; simpl.
  - destruct (api attempt) as [content|message]; [repeat split; try reflexivity; try (simpl; lia); try (intros ?; discriminate)|].
    destruct (is_rate_limit message); [|repeat split; try reflexivity; try (simpl; lia); try (intros ?; discriminate)].
    replace (Nat.ltb attempt max_retries) with false by (symmetry; apply Nat.ltb_ge; lia).
    repeat split; try reflexivity; try (simpl; lia); try (intros ?; discriminate).
  - destruct (api attempt) as [content|message];
      [repeat split; try reflexivity; try (simpl; lia); try (intros ?; discriminate)|].
    destruct (is_rate_limit message); [|repeat split; try reflexivity; try (simpl; lia); try (intros ?; discriminate)].
    replace (Nat.ltb attempt max_retries) with true by (symmetry; apply Nat.ltb_lt; lia).
    specialize (IH (S attempt) (Some message) ltac:(lia)). simpl in IH.
    destruct (match api (S attempt) with
              | Responds _ => _ | Fails _ => _ end) as [exit effects].
    simpl in *. destruct IH as (Hc & Hl & Hs & Hn).
    repeat split.
    + unfold calls in *. simpl. lia.
    + lia.
    + now rewrite Hs at 1.
    + exact Hn.
Qed.

(** X8. [_call_ai_with_retry] calls the service at least once and at most
    [max_retries + 1] times, and sleeps once between two calls: 2, 4, 8, ...
    seconds, that is [2 ^ calls - 2] seconds in all (at most 14 with the
    default of three retries). It always ends inside the loop: the
    [raise last_exc] after it is never reached. *)
Theorem call_ai_with_retry_bounded (api : nat -> api_outcome) (max_retries : nat) :
  1 <= calls (snd (_call_ai_with_retry api max_retries)) <= max_retries + 1 /\
  sleeps (snd (_call_ai_with_retry api max_retries))
  = map (fun i => Nat.pow 2 (i + 1))
        (seq 0 (calls (snd (_call_ai_with_retry api max_retries)) - 1)) /\
  list_sum (sleeps (snd (_call_ai_with_retry api max_retries))) + 2
  = Nat.pow 2 (calls (snd (_call_ai_with_retry api max_retries))) /\
  (max_retries = 3 ->
   list_sum (sleeps (snd (_call_ai_with_retry api max_retries))) <= 14) /\
  (forall last, fst (_call_ai_with_retry api max_retries) <> RaisedLast last).
Proof.
  unfold _call_ai_with_retry. rewrite Nat.add_1_r.
  destruct (retry_from_invariant api max_retries max_retries 0 None ltac:(lia))
    as (Hc & Hl & Hs & Hn).
  set (result := retry_from api max_retries (S max_retries) 0 None) in *.
  assert (Hk : calls (snd result) - 1 = List.length (sleeps (snd result))) by lia.
  assert (Hsum : list_sum (sleeps (snd result)) + 2 = Nat.pow 2 (calls (snd result))).
  { rewrite Hs, backoff_sum, Hc. reflexivity. }
  split; [lia|]. split; [now rewrite Hk|]. split; [exact Hsum|]. split; [|exact Hn].
  intros ->.
  assert (Nat.pow 2 (calls (snd result)) <= Nat.pow 2 4)
    by (apply Nat.pow_le_mono_r; lia).
  change (Nat.pow 2 4) with 16 in *. lia.
Qed.

(** X9. When the first [k] calls fail with rate-limit errors, [k] within
    [max_retries], and the next call answers, the function returns the
    answer stripped, after exactly [k] logged waits of 2, 4, ... seconds
    and [k + 1] calls. *)
Theorem call_ai_with_retry_succeeds (api : nat -> api_outcome)
        (max_retries k : nat) (content : str) :
  k <= max_retries ->
  (forall i, i < k ->
             exists message, api i = Fails message /\ is_rate_limit message = true) ->
  api k = Responds content ->
  _call_ai_with_retry api max_retries
  = (Returned (strip content), retried 0 k ++ [ApiCall]).
Proof.
  intros Hk Hfail Hok. unfold _call_ai_with_retry.
  replace (max_retries + 1) with (k + S (max_retries - k)) by lia.
  destruct (retry_from_retried api max_retries k (S (max_retries - k)) 0 None
              ltac:(lia)) as [last_exc' E].
  { intros i Hi. apply Hfail. lia. }
  rewrite E. simpl. now rewrite Hok.
Qed.

(** X10. An error that is not a rate-limit error is raised again as it
    is, at once: no wait follows it and no further call. After
    [max_retries + 1] rate-limit errors in a row the function gives up with
    a [RuntimeError] whose text is the formatted last error. *)
Theorem call_ai_with_retry_fails (api : nat -> api_outcome)
        (max_retries k : nat) (message : str) :
  k <= max_retries ->
  (forall i, i < k ->
             exists earlier, api i = Fails earlier /\ is_rate_limit earlier = true) ->
  api k = Fails message ->
  (is_rate_limit message = false ->
   _call_ai_with_retry api max_retries
   = (Reraised message, retried 0 k ++ [ApiCall])) /\
  (is_rate_limit message = true -> k = max_retries ->
   _call_ai_with_retry api max_retries
   = (RuntimeError (_format_rate_limit_error message),
      retried 0 max_retries ++ [ApiCall])).
Proof.
  intros Hk Hfail Hapi. unfold _call_ai_with_retry.
  replace (max_retries + 1) with (k + S (max_retries - k)) by lia.
  destruct (retry_from_retried api max_retries k (S (max_retries - k)) 0 None
              ltac:(lia)) as [last_exc' E].
  { intros i Hi. apply Hfail. lia. }
  rewrite E. simpl. rewrite Hapi. split.
  - intros ->. reflexivity.
  - intros -> ->. now rewrite Nat.ltb_irrefl.
Qed.

End RetryLoop.

Section UpdateSummary.
Context {U : UnicodeData}.

Import Py PyStr App.
Local Open Scope list_scope.

(** X11. The summary of an update is never longer than 300 characters,
    whatever the update printed. *)
Theorem summary_at_most_300 (source : str) (success : bool) (out : str) :
  List.length (_summarize_update_output source success out) <= 300.
Proof.
  unfold _summarize_update_output. destruct success.
  - repeat match goal with
           | |- context [if ?b then _ else _] => destruct b
           end; vm_compute; repeat constructor.
  - destruct (truthy out).
    + apply firstn_le_length.
    + vm_compute. repeat constructor.
Qed.

(** X12. The summary is empty in one case only: the update failed and its
    output is not empty but all whitespace. (With no output at all the
    summary of a failure is ["Failed"].) *)
Theorem summary_empty_iff (source : str) (success : bool) (out : str) :
  _summarize_update_output source success out = [] <->
  success = false /\ out <> [] /\ forallb isspace out = true.
Proof.
  unfold _summarize_update_output. split.
  - destruct success.
    + repeat match goal with
             | |- context [if ?b then _ else _] => destruct b
             end; discriminate.
    + destruct out as [|c t]; [discriminate|]. simpl truthy. cbv iota.
      intros H. split; [reflexivity|]. split; [discriminate|].
      apply strip_nil_inv. destruct (strip (c :: t)); [reflexivity | discriminate].
  - intros (-> & Hne & Hsp). destruct out as [|c t]; [contradiction|].
    simpl truthy. cbv iota. now rewrite (strip_all_space _ Hsp).
Qed.

(** X13. For an update that succeeded, the words [requirement already
    satisfied] or [already up-to-date] anywhere in the output, in any mix
    of upper and lower case, give the summary ["Already up to date"],
    whatever else the output says. *)
Theorem summary_already_up_to_date (source pre phrase post : str) :
  map ascii_lower phrase = str_of "requirement already satisfied" \/
  map ascii_lower phrase = str_of "already up-to-date" ->
  _summarize_update_output source true (pre ++ phrase ++ post)
  = str_of "Already up to date".
Proof.
  intros H. unfold _summarize_update_output.
  assert (Hfound : forall needle : str,
             forallb is_ascii needle = true ->
             map ascii_lower needle = needle ->
             map ascii_lower phrase = needle ->
             contains (lower (pre ++ phrase ++ post)) needle = true).
  { intros needle Hn Hfix E. rewrite <- E. apply lower_keeps_ascii.
    apply (same_fold_ascii phrase needle); [now rewrite Hfix | exact Hn]. }
  destruct H as [H|H].
  - rewrite (Hfound (str_of "requirement already satisfied") eq_refl eq_refl H).
    reflexivity.
  - rewrite (Hfound (str_of "already up-to-date") eq_refl eq_refl H).
    now rewrite orb_true_r.
Qed.

End UpdateSummary.

Section Processes.

Import Py PyStr App.
Local Open Scope list_scope.

Lemma run_each_spec (run : runner) (nt : bool) (items : list (str * str)) :
  forall ran lines,
    fst (run_each run nt items ran lines)
    = ran ++ map (fun item => _run_shell_command nt (fst item)) items /\
    List.length (snd (run_each run nt items ran lines))
    = List.length lines + 2 * List.length items.
Proof.
  induction items as [|[cmd desc] rest IH]; intros ran lines.
  - simpl. rewrite app_nil_r. split; [reflexivity | lia].
  - cbn [run_each].
    match goal with
    | |- context [run_each run nt rest ?r ?l] => destruct (IH r l) as [Hran Hlen]
    end.
    split.
    + rewrite Hran, <- app_assoc. reflexivity.
    + rewrite Hlen, length_app. simpl. lia.
Qed.

(** X14. [_run_commands] runs every pending command, once each and in
    order, whatever the earlier ones did: a command that fails or raises
    does not stop the ones after it. It logs two lines for each, then
    empties the list and disables the button, so that running it again
    starts nothing. *)
Theorem run_commands_runs_all (run : runner) (nt : bool) (w : window)
        (ran : list invocation) :
  snd (_run_commands run nt w ran)
  = ran ++ map (fun item => _run_shell_command nt (fst item)) (pending_commands w) /\
  List.length (output_lines (fst (_run_commands run nt w ran)))
  = List.length (output_lines w) + 2 * List.length (pending_commands w) /\
  (pending_commands w <> [] ->
   pending_commands (fst (_run_commands run nt w ran)) = [] /\
   exec_enabled (fst (_run_commands run nt w ran)) = false) /\
  _run_commands run nt (fst (_run_commands run nt w ran))
                (snd (_run_commands run nt w ran))
  = _run_commands run nt w ran.
Proof.
  unfold _run_commands. destruct (pending_commands w) as [|item rest] eqn:E.
  - simpl. rewrite E, app_nil_r. repeat split; try lia. contradiction.
  - destruct (run_each_spec run nt (item :: rest) ran (output_lines w)) as [Hran Hlen].
    destruct (run_each run nt (item :: rest) ran (output_lines w)) as [ran' lines'].
    simpl in *. repeat split; assumption.
Qed.

Lemma str_eqb_eq (s t : str) : str_eqb s t = true <-> s = t.
Proof.
  unfold str_eqb. destruct (list_eq_dec N.eq_dec s t); split; auto; discriminate.
Qed.

(** X15. [run_update] starts at most one process, never through a shell,
    and passes the package id inside one argument of its own. It starts
    none for a source other than [winget], [pip], [apt] and [npm], and
    reports ["Unknown source: <source>"]. It reports success only when the
    process completed with return code 0. *)
Theorem run_update_one_process (run : runner) (python : str)
        (ran : list invocation) (source pkg_id : str) :
  (snd (run_update run python ran source pkg_id) = [] \/
   exists args,
     snd (run_update run python ran source pkg_id) = [Argv args] /\
     (In pkg_id args \/ In (pkg_id ++ str_of "@latest") args)) /\
  (snd (run_update run python ran source pkg_id) = [] <->
   source <> str_of "winget" /\ source <> str_of "pip" /\
   source <> str_of "apt" /\ source <> str_of "npm") /\
  (snd (run_update run python ran source pkg_id) = [] ->
   fst (run_update run python ran source pkg_id)
   = (false, str_of "Unknown source: " ++ source)) /\
  (fst (fst (run_update run python ran source pkg_id)) = true ->
   exists call stdout stderr,
     snd (run_update run python ran source pkg_id) = [call] /\
     run ran call = Completed 0 stdout stderr).
Proof.
  unfold run_update.
  destruct (str_eqb source (str_of "winget")) eqn:E1;
    [|destruct (str_eqb source (str_of "pip")) eqn:E2;
      [|destruct (str_eqb source (str_of "apt")) eqn:E3;
        [|destruct (str_eqb source (str_of "npm")) eqn:E4]]].
  5: { repeat split; auto; try discriminate;
       intros ->; discriminate. }
  all: match goal with
       | |- context [match ?outcome with Completed _ _ _ => _ | RunRaises _ _ => _ end] =>
           destruct outcome as [rc out err|e message] eqn:Hrun
       end; simpl.
  all: repeat split;
    try (right; eexists; split; [reflexivity | simpl; tauto]);
    try discriminate;
    try (intros (H1 & H2 & H3 & H4);
         first [apply str_eqb_eq in E1 | apply str_eqb_eq in E2
               | apply str_eqb_eq in E3 | apply str_eqb_eq in E4];
         contradiction).
  all: intros Hz; apply Z.eqb_eq in Hz; subst rc; eauto.
Qed.

End Processes.

(** * The scan for outdated packages *)

Section Scan.

Import Py PyStr App.
Local Open Scope N_scope.
Local Open Scope list_scope.







Lemma flat_map_at_most_one {A B : Type} (f : A -> list B) (l : list A) :
  (forall x, (List.length (f x) <= 1)%nat) ->
  (List.length (flat_map f l) <= List.length l)%nat.
Proof.
  intros Hf. induction l as [|x l IH]; simpl; [lia|].
  rewrite length_app. specialize (Hf x). lia.
Qed.


(** X17. What the scan reads from the output of [pip list --outdated]:
    the first two lines are never read; each line after them that has at
    least three columns gives one entry, in the order of the lines, whose
    name, current and available version are the first three columns;
    further columns are ignored, and a line of fewer than three columns
    gives no entry. So no field of an entry is empty or has whitespace in
    it. *)
Theorem pip_packages_fields (stdout : str) :
  map (fun p => [pkg_name p; pkg_current p; pkg_available p]) (pip_packages stdout)
  = map (firstn 3)
        (filter (fun columns => Nat.leb 3 (List.length columns))
                (map split (skipn 2 (splitlines stdout)))) /\
  Forall (fun p =>
            pkg_source p = "pip"%string /\
            pkg_id p = pkg_name p /\
            Forall (fun field =>
                      field <> [] /\
                      forallb (fun c => negb (isspace c)) field = true)
                   [pkg_name p; pkg_current p; pkg_available p] /\
            exists line,
              In line (skipn 2 (splitlines stdout)) /\
              firstn 3 (split line) = [pkg_name p; pkg_current p; pkg_available p])
         (pip_packages stdout) /\
  (List.length (pip_packages stdout) <= List.length (splitlines stdout) - 2)%nat.
Proof.
  unfold pip_packages. split; [|split].
  - induction (skipn 2 (splitlines stdout)) as [|line rest IH]; [reflexivity|].
    cbn [flat_map map filter]. rewrite map_app, IH.
    destruct (split line) as [|p0 [|p1 [|p2 more]]]; reflexivity.
  - apply Forall_forall. intros p Hp. apply in_flat_map in Hp.
    destruct Hp as (line & Hline & Hp).
    assert (Hclean := split_clean line).
    destruct (split line) as [|p0 [|p1 [|p2 more]]] eqn:E;
      try (exfalso; exact Hp).
    destruct Hp as [<-|[]]. cbn [pkg_source pkg_id pkg_name pkg_available pkg_current].
    inversion Hclean as [|? ? H0 Hclean1]; subst.
    inversion Hclean1 as [|? ? H1 Hclean2]; subst.
    inversion Hclean2 as [|? ? H2 _]; subst.
    repeat split; try (now repeat constructor).
    exists line. split; [exact Hline|]. now rewrite E.
  - rewrite <- length_skipn. apply flat_map_at_most_one.
    intros line. destruct (split line) as [|p0 [|p1 [|p2 more]]]; simpl; lia.
Qed.

(** What a tool gives to the scan: the entries read from its output when
    it completed with return code 0, none otherwise. *)
Lemma tool_entries (o : run_outcome) (read : str -> list package) :
  (forall stdout stderr,
      o = Completed 0 stdout stderr ->
      match o with
      | Completed returncode out _ => if Z.eqb returncode 0 then read out else []
      | RunRaises _ _ => []
      end = read stdout) /\
  ((forall stdout stderr, o <> Completed 0 stdout stderr) ->
   match o with
   | Completed returncode out _ => if Z.eqb returncode 0 then read out else []
   | RunRaises _ _ => []
   end = []).
Proof.
  destruct o as [rc out err|e m].
  - destruct (Z.eqb rc 0) eqn:E.
    + apply Z.eqb_eq in E. subst rc. split.
      * intros stdout stderr H. now injection H as <- <-.
      * intros H. exfalso. exact (H out err eq_refl).
    + split; [|reflexivity].
      intros stdout stderr H. injection H as -> _ _. discriminate E.
  - split; [discriminate | reflexivity].
Qed.

(** X18. On Linux the scan starts [apt] first. Only an exception of
    [apt] other than a timeout or a missing program gets out of the scan,
    and then [pip] is not started. In every other case both are started,
    in this order, and the list is the entries of [apt] followed by those
    of [pip], where a tool gives the entries read from its output when it
    completed with return code 0 and none otherwise. So no failure of
    [pip] loses what [apt] gave: the list starts with the entries of
    [apt] whenever [apt] completed with return code 0. *)
Theorem scan_linux_outcomes (run : runner) (python : str) (ran : list invocation) :
  (forall e message,
      fst (get_outdated_packages_linux run python ran) = ScanRaises e message <->
      e = OtherError /\ run ran apt_list = RunRaises OtherError message) /\
  (forall e message,
      fst (get_outdated_packages_linux run python ran) = ScanRaises e message ->
      snd (get_outdated_packages_linux run python ran) = ran ++ [apt_list]) /\
  (forall results,
      fst (get_outdated_packages_linux run python ran) = Scanned results ->
      snd (get_outdated_packages_linux run python ran)
      = ran ++ [apt_list; pip_list python] /\
      exists from_apt from_pip,
        results = from_apt ++ from_pip /\
        (forall stdout stderr,
            run ran apt_list = Completed 0 stdout stderr ->
            from_apt = apt_packages stdout) /\
        ((forall stdout stderr, run ran apt_list <> Completed 0 stdout stderr) ->
         from_apt = []) /\
        (forall stdout stderr,
            run (ran ++ [apt_list]) (pip_list python) = Completed 0 stdout stderr ->
            from_pip = pip_packages stdout) /\
        ((forall stdout stderr,
             run (ran ++ [apt_list]) (pip_list python) <> Completed 0 stdout stderr) ->
         from_pip = [])) /\
  (forall stdout stderr,
      run ran apt_list = Completed 0 stdout stderr ->
      exists from_pip,
        fst (get_outdated_packages_linux run python ran)
        = Scanned (apt_packages stdout ++ from_pip)).
Proof.
  unfold get_outdated_packages_linux. cbv zeta.
  assert (Hpip : forall from_apt,
             match run (ran ++ [apt_list]) (pip_list python) with
             | Completed returncode stdout _ =>
                 if Z.eqb returncode 0 then from_apt ++ pip_packages stdout
                 else from_apt
             | RunRaises _ _ => from_apt
             end
             = from_apt ++
               match run (ran ++ [apt_list]) (pip_list python) with
               | Completed returncode out _ =>
                   if Z.eqb returncode 0 then pip_packages out else []
               | RunRaises _ _ => []
               end).
  { intros from_apt.
    destruct (run (ran ++ [apt_list]) (pip_list python)) as [rc out err|e m];
      [destruct (Z.eqb rc 0)|]; now rewrite ?app_nil_r. }
  destruct (tool_entries (run (ran ++ [apt_list]) (pip_list python)) pip_packages)
    as [Hpip1 Hpip2].
  destruct (tool_entries (run ran apt_list) apt_packages) as [Hapt1 Hapt2].
  assert (Hscanned : forall (from_apt results : list package),
             (forall stdout stderr,
                 run ran apt_list = Completed 0 stdout stderr ->
                 from_apt = apt_packages stdout) ->
             ((forall stdout stderr, run ran apt_list <> Completed 0 stdout stderr) ->
              from_apt = []) ->
             match run (ran ++ [apt_list]) (pip_list python) with
             | Completed returncode stdout _ =>
                 if Z.eqb returncode 0 then from_apt ++ pip_packages stdout
                 else from_apt
             | RunRaises _ _ => from_apt
             end = results ->
             exists from_apt' from_pip,
               results = from_apt' ++ from_pip /\
               (forall stdout stderr,
                   run ran apt_list = Completed 0 stdout stderr ->
                   from_apt' = apt_packages stdout) /\
               ((forall stdout stderr, run ran apt_list <> Completed 0 stdout stderr) ->
                from_apt' = []) /\
               (forall stdout stderr,
                   run (ran ++ [apt_list]) (pip_list python) = Completed 0 stdout stderr ->
                   from_pip = pip_packages stdout) /\
               ((forall stdout stderr,
                    run (ran ++ [apt_list]) (pip_list python)
                    <> Completed 0 stdout stderr) ->
                from_pip = [])).
  { intros from_apt results H1 H2 E. rewrite Hpip in E. subst results.
    eexists from_apt, _. split; [reflexivity|].
    split; [exact H1|]. split; [exact H2|]. split; [exact Hpip1 | exact Hpip2]. }
  destruct (run ran apt_list) as [rc out err|e m] eqn:Hapt.
  - cbn [fst snd]. split; [|split; [|split]].
    + intros e message. split; [discriminate | intros [_ H]; discriminate].
    + discriminate.
    + intros results H. injection H as H. split; [reflexivity|].
      exact (Hscanned _ _ Hapt1 Hapt2 H).
    + intros stdout stderr H. injection H as -> -> _.
      rewrite Hpip. simpl. eauto.
  - destruct e; cbn [fst snd].
    3: { split; [|split; [|split]].
         - intros e message. split.
           + intros H. injection H as <- <-. auto.
           + intros [-> H]. injection H as <-. reflexivity.
         - reflexivity.
         - discriminate.
         - discriminate. }
    all: split; [|split; [|split]];
      [ intros e message; split; [discriminate | intros [_ H]; discriminate]
      | discriminate
      | intros results H; injection H as H; split; [reflexivity|];
        apply (Hscanned [] results); [discriminate | reflexivity | exact H]
      | discriminate ].
Qed.

End Scan.

(** * [src/main.py]: which answers are run *)

Section AuraFacts.
Context {U : UnicodeData}.

Import Py PyStr App.
Local Open Scope list_scope.

(** A word that starts and ends with non-whitespace is found in the
    lower-cased, stripped answer that holds it in any mix of case. *)
Lemma word_in_stripped_reply (needle pre word post : str) :
  starts_nonspace needle = true ->
  starts_nonspace (rev needle) = true ->
  forallb is_ascii needle = true ->
  map ascii_lower needle = needle ->
  map ascii_lower word = needle ->
  contains (lower (strip (pre ++ word ++ post))) needle = true.
Proof.
  intros Hs Hr Ha Hfix Hw.
  assert (Hv : map ascii_lower word = map ascii_lower needle) by now rewrite Hfix.
  assert (Hva := same_fold_ascii _ _ Hv Ha).
  assert (Hvs : starts_nonspace word = true)
    by now rewrite (same_fold_starts_nonspace _ _ Hv).
  assert (Hvr : starts_nonspace (rev word) = true).
  { rewrite (same_fold_starts_nonspace (rev word) (rev needle)); [exact Hr|].
    now rewrite !map_rev, Hv. }
  destruct (strip_keeps pre word post Hvs Hvr) as (pre' & post' & E).
  rewrite E, <- Hw. now apply lower_keeps_ascii.
Qed.

(** X19. An answer of the model that holds [hello], [sorry] or [i am]
    anywhere, in any mix of upper and lower case, is never run: it is
    shown after ["Aura: "], no process is started, and the conversation
    gets the user's message only. *)
Theorem conversational_reply_not_run (run : runner) (ran : list invocation)
        (w : aura) (user_text pre word post : str) :
  In (map ascii_lower word) [str_of "hello"; str_of "sorry"; str_of "i am"] ->
  ai_logic run ran w user_text (ChatReplies (pre ++ word ++ post))
  = ({| history := history w ++ [("user"%string, user_text)];
        aura_lines := aura_lines w
                      ++ [str_of "Aura: " ++ strip (pre ++ word ++ post)] |},
     ran).
Proof.
  intros Hin. unfold ai_logic.
  assert (Hany : existsb (fun x => contains (lower (strip (pre ++ word ++ post)))
                                            (str_of x))
                         ["hello"; "sorry"; "i am"]%string = true).
  { cbn [existsb]. cbn [In] in Hin.
    destruct Hin as [H|[H|[H|[]]]].
    - rewrite (word_in_stripped_reply (str_of "hello") pre word post
                 eq_refl eq_refl eq_refl eq_refl (eq_sym H)).
      reflexivity.
    - rewrite (word_in_stripped_reply (str_of "sorry") pre word post
                 eq_refl eq_refl eq_refl eq_refl (eq_sym H)).
      now rewrite orb_true_r.
    - rewrite (word_in_stripped_reply (str_of "i am") pre word post
                 eq_refl eq_refl eq_refl eq_refl (eq_sym H)).
      now rewrite !orb_true_r. }
  rewrite Hany. cbn [negb]. now rewrite andb_false_r.
Qed.

(** X20. [main.py] does not consult [CommandSafety]: an answer that
    [check] blocks is passed to the shell all the same, stripped and
    otherwise as it is, unless it holds one of the three words. *)
Theorem blocked_command_still_run (run : runner) (ran : list invocation)
        (w : aura) (user_text content : str) (reason : string) :
  check CommandSafety content = Returns (false, reason) ->
  existsb (fun x => contains (lower (strip content)) (str_of x))
          ["hello"; "sorry"; "i am"]%string = false ->
  snd (ai_logic run ran w user_text (ChatReplies content))
  = ran ++ [Shell (strip content)].
Proof.
  intros Hblocked Hnone. unfold ai_logic. rewrite Hnone.
  destruct (strip content) as [|c t] eqn:E.
  - rewrite (check_blank_eq CommandSafety content E) in Hblocked. discriminate.
  - cbn [truthy negb andb].
    now destruct (run ran (Shell (c :: t))).
Qed.

End AuraFacts.

(** * From the scan to the update *)

Section ScanThenUpdate.

Import Py PyStr App.
Local Open Scope list_scope.

Lemma apt_packages_source (stdout : str) :
  Forall (fun p => pkg_source p = "apt"%string) (apt_packages stdout).
Proof.
  unfold apt_packages. apply Forall_forall. intros p Hp.
  apply in_flat_map in Hp. destruct Hp as (line & _ & Hp).
  destruct (contains line (str_of "/")); [|destruct Hp].
  destruct (if contains (hd [] (split_on 47 line)) (str_of " ")
            then rsplit_last 32 (hd [] (split_on 47 line))
            else (hd [] (split_on 47 line), str_of "?")) as [name current].
  destruct Hp as [<-|[]]. reflexivity.
Qed.

Lemma pip_packages_source (stdout : str) :
  Forall (fun p => pkg_source p = "pip"%string) (pip_packages stdout).
Proof.
  unfold pip_packages. apply Forall_forall. intros p Hp.
  apply in_flat_map in Hp. destruct Hp as (line & _ & Hp).
  destruct (split line) as [|p0 [|p1 [|p2 more]]]; try (exfalso; exact Hp).
  destruct Hp as [<-|[]]. reflexivity.
Qed.

Lemma scan_linux_sources (run : runner) (python : str) (ran : list invocation)
      (results : list package) :
  fst (get_outdated_packages_linux run python ran) = Scanned results ->
  Forall (fun p => pkg_source p = "apt"%string \/ pkg_source p = "pip"%string)
         results.
Proof.
  assert (Hapt : forall out,
             Forall (fun p => pkg_source p = "apt"%string \/ pkg_source p = "pip"%string)
                    (apt_packages out)).
  { intros out. eapply Forall_impl; [|apply apt_packages_source]. intros p H. now left. }
  assert (Hpip : forall out,
             Forall (fun p => pkg_source p = "apt"%string \/ pkg_source p = "pip"%string)
                    (pip_packages out)).
  { intros out. eapply Forall_impl; [|apply pip_packages_source]. intros p H. now right. }
  assert (Hstep : forall from_apt,
             Forall (fun p => pkg_source p = "apt"%string \/ pkg_source p = "pip"%string)
                    from_apt ->
             Forall (fun p => pkg_source p = "apt"%string \/ pkg_source p = "pip"%string)
                    match run (ran ++ [apt_list]) (pip_list python) with
                    | Completed returncode stdout _ =>
                        if Z.eqb returncode 0 then from_apt ++ pip_packages stdout
                        else from_apt
                    | RunRaises _ _ => from_apt
                    end).
  { intros from_apt Hfrom.
    destruct (run (ran ++ [apt_list]) (pip_list python)) as [rc' out' err'|e' m'];
      [|exact Hfrom].
    destruct (Z.eqb rc' 0); [|exact Hfrom].
    apply Forall_app. split; [exact Hfrom | apply Hpip]. }
  unfold get_outdated_packages_linux. cbv zeta.
  destruct (run ran apt_list) as [rc out err|e m].
  - cbn [fst]. intros H. injection H as <-. apply Hstep.
    destruct (Z.eqb rc 0); [apply Hapt | constructor].
  - destruct e; cbn [fst]; intros H; try discriminate; injection H as <-;
      apply (Hstep []); constructor.
Qed.

Lemma sources_differ :
  str_eqb (str_of "apt") (str_of "winget") = false /\
  str_eqb (str_of "apt") (str_of "pip") = false /\
  str_eqb (str_of "apt") (str_of "apt") = true /\
  str_eqb (str_of "pip") (str_of "winget") = false /\
  str_eqb (str_of "pip") (str_of "pip") = true.
Proof. vm_compute. repeat split. Qed.

(** X21. Every entry the scan gives on Linux can be updated: whatever
    the machine does, [run_update] called with the entry's source and id
    knows the source, and starts exactly one process, not through a
    shell, with the id as one argument of its own. *)
Theorem scanned_entries_are_updatable (run run' : runner) (python : str)
        (ran ran' : list invocation) (results : list package) (p : package) :
  fst (get_outdated_packages_linux run python ran) = Scanned results ->
  In p results ->
  exists args,
    snd (run_update run' python ran' (str_of (pkg_source p)) (pkg_id p)) = [Argv args] /\
    In (pkg_id p) args.
Proof.
  intros Hscan Hin.
  assert (Hsrc := scan_linux_sources run python ran results Hscan).
  rewrite Forall_forall in Hsrc. specialize (Hsrc p Hin).
  destruct sources_differ as (E1 & E2 & E3 & E4 & E5).
  unfold run_update.
  destruct Hsrc as [-> | ->].
  - rewrite E1, E2, E3.
    match goal with
    | |- context [run' ran' ?call] => destruct (run' ran' call)
    end; cbn [fst snd]; eexists; (split; [reflexivity|]); simpl; tauto.
  - rewrite E4, E5.
    match goal with
    | |- context [run' ran' ?call] => destruct (run' ran' call)
    end; cbn [fst snd]; eexists; (split; [reflexivity|]); simpl; tauto.
Qed.

End ScanThenUpdate.

(** * Instances of the further properties *)

Import Py PyStr App Instances.
Local Open Scope list_scope.

(** X1, at a command with a tab and a space before it and a carriage
    return and a line feed after it. *)
Lemma check_ignores_padding_witness :
  forallb isspace [9; 32]%N = true /\
  forallb isspace [13; 10]%N = true /\
  check (U := ascii_only) CommandSafety
        ([9; 32]%N ++ str_of "rm -rf /tmp/build" ++ [13; 10]%N)
  = check (U := ascii_only) CommandSafety (str_of "rm -rf /tmp/build").
Proof.
  split; [reflexivity|]. split; [reflexivity|].
  apply (@check_ignores_padding ascii_only CommandSafety); reflexivity.
Defined.

(** X4, at a key whose value is still the placeholder of the template. *)
Lemma get_env_never_placeholder_witness :
  is_placeholder (str_of "gpt-4o-mini") = false /\
  openrouter_env "OPENAI_API_KEY" = Some (str_of "__OPENAI_API_KEY__") /\
  is_placeholder (get_env openrouter_env "OPENAI_API_KEY" (str_of "gpt-4o-mini")) = false.
Proof.
  split; [reflexivity|]. split; [reflexivity|].
  exact (proj1 (get_env_never_placeholder openrouter_env "OPENAI_API_KEY"
                  (str_of "gpt-4o-mini") eq_refl)).
Defined.

(** X6, at the environment above and the default model. *)
Lemma init_openai_openrouter_endpoint_witness :
  _init_openai openrouter_env true (str_of "gpt-4o-mini")
  = Some {| api_key := str_of "sk-or-v1-0123"; base_url := Some openrouter_url |} /\
  truthy (get_env openrouter_env "OPENROUTER_API_KEY" []) = true /\
  api_key {| api_key := str_of "sk-or-v1-0123"; base_url := Some openrouter_url |}
  = get_env openrouter_env "OPENROUTER_API_KEY" [] /\
  base_url {| api_key := str_of "sk-or-v1-0123"; base_url := Some openrouter_url |}
  = Some (if truthy (get_env openrouter_env "OPENAI_BASE_URL" [])
          then get_env openrouter_env "OPENAI_BASE_URL" []
          else openrouter_url).
Proof.
  split; [reflexivity|]. split; [reflexivity|].
  apply (init_openai_openrouter_endpoint openrouter_env (str_of "gpt-4o-mini"));
    reflexivity.
Defined.

(** X7, at the same environment: the two windows build different
    clients. *)
Lemma init_client_openrouter_default_endpoint_witness :
  _init_client openrouter_env true (model_of openrouter_env)
  = Some {| api_key := get_env openrouter_env "OPENROUTER_API_KEY" [];
            base_url := None |} /\
  _init_openai openrouter_env true (model_of openrouter_env)
  = Some {| api_key := get_env openrouter_env "OPENROUTER_API_KEY" [];
            base_url := Some openrouter_url |}.
Proof.
  apply (init_client_openrouter_default_endpoint openrouter_env); reflexivity.
Defined.

(** X9, at a service that is rate-limited once: two calls, one sleep of
    two seconds. *)
Lemma call_ai_with_retry_succeeds_witness :
  _call_ai_with_retry (U := ascii_only) limited_once 3
  = (Returned (str_of "ls -la"),
     [ApiCall; Log (retry_line 2); Sleep 2; ApiCall]).
Proof.
  apply (@call_ai_with_retry_succeeds ascii_only limited_once 3 1 (str_of "  ls -la ")).
  - repeat constructor.
  - intros i Hi. exists (str_of "Error code: 429").
    destruct i as [|i]; [split; reflexivity|].
    exfalso. inversion Hi as [|? Hi']. inversion Hi'.
  - reflexivity.
Defined.

(** X10, at a service that is rate-limited at every call, with one
    retry: two calls, then the friendly message. *)
Lemma call_ai_with_retry_fails_witness :
  _call_ai_with_retry (U := ascii_only) always_limited 1
  = (RuntimeError
       (_format_rate_limit_error
          (str_of "Error code: 429 - provider is rate-limited upstream")),
     retried 0 1 ++ [ApiCall]).
Proof.
  refine (proj2 (@call_ai_with_retry_fails ascii_only always_limited 1 1
                   (str_of "Error code: 429 - provider is rate-limited upstream")
                   _ _ eq_refl) eq_refl eq_refl).
  - constructor.
  - intros i Hi.
    exists (str_of "Error code: 429 - provider is rate-limited upstream").
    split; reflexivity.
Defined.

(** X13, at an output of [pip] in capitals. *)
Lemma summary_already_up_to_date_witness :
  _summarize_update_output (U := ascii_only) (str_of "pip") true
    (str_of "pip: " ++ str_of "Requirement Already Satisfied" ++ str_of ": idna")
  = str_of "Already up to date".
Proof.
  apply (@summary_already_up_to_date ascii_only).
  left. reflexivity.
Defined.

(** X19, at a command that prints a greeting. *)
Lemma conversational_reply_not_run_witness :
  ai_logic (U := ascii_only) quiet [] {| history := []; aura_lines := [] |}
           (str_of "greet me")
           (ChatReplies (str_of "echo " ++ str_of "Hello" ++ str_of " world"))
  = ({| history := [("user"%string, str_of "greet me")];
        aura_lines := [str_of "Aura: echo Hello world"] |}, []).
Proof.
  apply (@conversational_reply_not_run ascii_only quiet []
           {| history := []; aura_lines := [] |} (str_of "greet me")
           (str_of "echo ") (str_of "Hello") (str_of " world")).
  left. reflexivity.
Defined.

(** X20, at the first literal of the table. *)
Lemma blocked_command_still_run_witness :
  check (U := ascii_only) CommandSafety (str_of " rm -rf / ")
  = Returns (false, "Blocked: potentially destructive (rm -rf /)"%string) /\
  snd (ai_logic (U := ascii_only) quiet [] {| history := []; aura_lines := [] |}
                (str_of "free some space") (ChatReplies (str_of " rm -rf / ")))
  = [Shell (str_of "rm -rf /")].
Proof.
  split; [reflexivity|].
  apply (@blocked_command_still_run ascii_only quiet []
           {| history := []; aura_lines := [] |} (str_of "free some space")
           (str_of " rm -rf / ")
           "Blocked: potentially destructive (rm -rf /)"%string);
    reflexivity.
Defined.

(** X21, at a machine with [apt] and without [pip]: the scan gives one
    entry, for which the update starts [sudo apt install]. *)
Lemma scanned_entries_are_updatable_witness :
  fst (get_outdated_packages_linux apt_only (str_of "python3") [])
  = Scanned [{| pkg_source := "apt"; pkg_name := str_of "vim"; pkg_id := str_of "vim";
                pkg_current := str_of "?"; pkg_available := str_of "?" |}] /\
  exists args,
    snd (run_update quiet (str_of "python3") [] (str_of "apt") (str_of "vim"))
    = [Argv args] /\
    In (str_of "vim") args.
Proof.
  split; [reflexivity|].
  apply (scanned_entries_are_updatable apt_only quiet (str_of "python3") [] []
           [{| pkg_source := "apt"; pkg_name := str_of "vim"; pkg_id := str_of "vim";
               pkg_current := str_of "?"; pkg_available := str_of "?" |}]
           {| pkg_source := "apt"; pkg_name := str_of "vim"; pkg_id := str_of "vim";
              pkg_current := str_of "?"; pkg_available := str_of "?" |}).
  - reflexivity.
  - left. reflexivity.
Defined.
